(** * extract_docs_improved: the documentation cleaner, embedded in Rocq

    A shallow embedding of [src/extract_docs_improved.py]: the table
    formatter [format_markdown_table], the normalizer
    [extract_text_from_markdown] and the record filter of
    [process_documentation], with the properties of the specification
    stated and settled on them.

    Conventions.

    - A Python [str] is a list of code points, [list N].
    - The literals of the source are kept character for character.  The
      source writes its line separator as ['\\n'], which in Python is the
      string of TWO characters, a backslash followed by the letter n; it
      is not the line feed.  Rocq string literals have no backslash
      escapes, so [lit "\n"] below is that same two-character string.  The
      line feed itself is the code point [LF] = 10. *)

From Stdlib Require Import List NArith ZArith Ascii String Bool Arith Lia.
From Stdlib Require Import DecimalString DecimalNat Finite.
Import ListNotations.

Local Open Scope N_scope.
Local Open Scope list_scope.

(** ** Python strings *)

Definition char := N.
Definition str := list char.

(** [lit s] is the Python string with the characters of the literal [s]. *)
Definition lit (s : string) : str := map N_of_ascii (list_ascii_of_string s).
Definition chr (a : ascii) : char := N_of_ascii a.

Definition LF : char := 10.
Definition CR : char := 13.
Definition PIPE : char := chr "|".
Definition SPACE : char := chr " ".

(** The separator the source writes ['\\n']: backslash, then [n]. *)
Definition BSN : str := lit "\n".

Definition str_eqb (a b : str) : bool :=
  if list_eq_dec N.eq_dec a b then true else false.

(** Truth value of a string: non-empty. *)
Definition truthy (s : str) : bool :=
  match s with [] => false | _ :: _ => true end.

(** [str.isspace] on one code point (the white space [str.strip] removes). *)
Definition isspace (c : char) : bool :=
  ((9 <=? c) && (c <=? 13)) || ((28 <=? c) && (c <=? 32))
  || (c =? 133) || (c =? 160) || (c =? 5760)
  || ((8192 <=? c) && (c <=? 8202))
  || (c =? 8232) || (c =? 8233) || (c =? 8239) || (c =? 8287)
  || (c =? 12288).

(** The line boundaries of [str.splitlines]. *)
Definition is_linebreak (c : char) : bool :=
  ((10 <=? c) && (c <=? 13)) || ((28 <=? c) && (c <=? 30))
  || (c =? 133) || (c =? 8232) || (c =? 8233).

Fixpoint lstrip (s : str) : str :=
  match s with
  | [] => []
  | c :: s' => if isspace c then lstrip s' else s
  end.

Fixpoint rstrip (s : str) : str :=
  match s with
  | [] => []
  | c :: s' =>
      match rstrip s' with
      | [] => if isspace c then [] else [c]
      | r => c :: r
      end
  end.

(** [s.strip()] *)
Definition strip (s : str) : str := rstrip (lstrip s).

(** [s.startswith(p)] *)
Fixpoint startswith (p s : str) : bool :=
  match p, s with
  | [], _ => true
  | _ :: _, [] => false
  | a :: p', b :: s' => (a =? b) && startswith p' s'
  end.

(** [s.endswith(p)] *)
Definition endswith (p s : str) : bool := startswith (rev p) (rev s).

(** [p in s] *)
Fixpoint contains (p s : str) : bool :=
  startswith p s || match s with [] => false | _ :: s' => contains p s' end.

(** [sep.join(parts)] *)
Fixpoint join (sep : str) (parts : list str) : str :=
  match parts with
  | [] => []
  | [p] => p
  | p :: rest => p ++ sep ++ join sep rest
  end.

(** Put a character in front of the first piece. *)
Definition cons_head (c : char) (pieces : list str) : list str :=
  match pieces with
  | [] => [[c]]
  | p :: ps => (c :: p) :: ps
  end.

(** [s.split(sep)] for a non-empty [sep]: the pieces between the
    occurrences of [sep], found from the left without overlap.  [skip]
    counts the characters of the occurrence in progress that are still to
    be passed over. *)
Fixpoint split_go (sep s : str) (skip : nat) : list str :=
  match s with
  | [] => [[]]
  | c :: s' =>
      match skip with
      | S k => split_go sep s' k
      | O =>
          if startswith sep s
          then [] :: split_go sep s' (pred (List.length sep))
          else cons_head c (split_go sep s' 0)
      end
  end.

Definition split (sep s : str) : list str := split_go sep s 0.

(** [s.splitlines()]: a CR LF pair is one boundary, and a final boundary
    opens no further line. *)
Fixpoint splitlines (s : str) : list str :=
  match s with
  | [] => []
  | c :: s' =>
      if is_linebreak c then
        [] :: match s' with
              | d :: s'' => if (c =? CR) && (d =? LF)
                            then splitlines s'' else splitlines s'
              | [] => []
              end
      else cons_head c (splitlines s')
  end.

(** [s.replace(old, new)]: every occurrence, from the left, no overlap. *)
Fixpoint replace_go (old new s : str) (skip : nat) : str :=
  match s with
  | [] => []
  | c :: s' =>
      match skip with
      | S k => replace_go old new s' k
      | O =>
          if startswith old s
          then new ++ replace_go old new s' (pred (List.length old))
          else c :: replace_go old new s' 0
      end
  end.

Definition replace (old new s : str) : str :=
  match old with
  | [] => new ++ flat_map (fun c => c :: new) s
  | _ :: _ => replace_go old new s 0
  end.

(** [s.replace(old, new, 1)]: the first occurrence only. *)
Fixpoint replace_first (old new s : str) : str :=
  if startswith old s then new ++ skipn (List.length old) s
  else match s with
       | [] => []
       | c :: s' => c :: replace_first old new s'
       end.

(** [l[1:-1]] *)
Definition slice_1_m1 {A} (l : list A) : list A := removelast (tl l).

(** [str(n)] for a length. *)
Definition str_of_nat (n : nat) : str :=
  lit (NilEmpty.string_of_uint (Nat.to_uint n)).

(** ** The table formatter *)

(** [[line.strip() for line in table_text.strip().split('\\n')
      if line.strip()]] *)
Definition table_rows (table_text : str) : list str :=
  map strip (filter (fun line => truthy (strip line))
                    (split BSN (strip table_text))).

(** [all(c in '|\\t -:' for c in line)]: the set holds a backslash and the
    letter t, not a tab. *)
Definition is_separator (line : str) : bool :=
  forallb (fun c => existsb (N.eqb c) (lit "|\t -:")) line.

Definition data_lines_of (rest : list str) : list str :=
  filter (fun line => negb (is_separator line) && truthy (strip line)) rest.

(** [[cell.strip() for cell in header_line.split('|')[1:-1]
      if cell.strip()]] *)
Definition headers_of (header_line : str) : list str :=
  map strip (filter (fun cell => truthy (strip cell))
                    (slice_1_m1 (split [PIPE] header_line))).

(** [[cell.strip() for cell in line.split('|')[1:-1]]] *)
Definition cells_of (line : str) : list str :=
  map strip (slice_1_m1 (split [PIPE] line)).

(** The loop over [enumerate(cells)] from index [i] on. *)
Fixpoint row_text_from (headers : list str) (i : nat) (cells : list str)
  : list str :=
  match cells with
  | [] => []
  | cell :: rest =>
      (if truthy cell then
         match nth_error headers i with
         | Some h => if truthy h then [h ++ lit ": " ++ cell] else [cell]
         | None => [cell]
         end
       else [])
      ++ row_text_from headers (S i) rest
  end.

Definition nonempty {A} (l : list A) : bool :=
  match l with [] => false | _ :: _ => true end.

(** What one data line adds to [formatted_lines]. *)
Definition format_row (headers : list str) (line : str) : list str :=
  if startswith [PIPE] line && endswith [PIPE] line then
    let cells := cells_of line in
    if nonempty cells && existsb truthy cells then
      let row_text := row_text_from headers 0 cells in
      if nonempty row_text then [join (lit " | ") row_text] else []
    else []
  else [].

Definition formatted_lines_of (headers data_lines : list str) : list str :=
  flat_map (format_row headers) data_lines.

(** [table_text.replace('|', ' ').strip()] *)
Definition plain_fallback (table_text : str) : str :=
  strip (replace [PIPE] [SPACE] table_text).

Definition format_markdown_table (table_text : str) : str :=
  match table_rows table_text with
  | [] => []
  | header_line :: rest =>
      let data_lines := data_lines_of rest in
      if negb (startswith [PIPE] header_line) then plain_fallback table_text
      else
        let headers := headers_of header_line in
        let formatted_lines := formatted_lines_of headers data_lines in
        if negb (nonempty formatted_lines) then plain_fallback table_text
        else join BSN formatted_lines
  end.

(** *** The formatter with its indexing made explicit

    The same function with [lines[0]] and [headers[i]] as operations that
    raise [IndexError] out of range, to state that no input reaches a
    raise. *)

Inductive exn : Type := IndexError.

Inductive result (A : Type) : Type :=
| Ok (a : A)
| Raise (e : exn).
Arguments Ok {A} a.
Arguments Raise {A} e.

Definition bind {A B} (c : result A) (k : A -> result B) : result B :=
  match c with
  | Ok a => k a
  | Raise e => Raise e
  end.

Notation "x <- c ;; k" := (bind c (fun x => k))
  (at level 61, c at next level, right associativity).

(** [l[i]] *)
Definition getitem {A} (l : list A) (i : nat) : result A :=
  match nth_error l i with
  | Some a => Ok a
  | None => Raise IndexError
  end.

Fixpoint row_text_from_exc (headers : list str) (i : nat) (cells : list str)
  : result (list str) :=
  match cells with
  | [] => Ok []
  | cell :: rest =>
      part <- (if truthy cell then
                 if Nat.ltb i (List.length headers) then
                   h <- getitem headers i ;;
                   Ok (if truthy h then [h ++ lit ": " ++ cell] else [cell])
                 else Ok [cell]
               else Ok []) ;;
      more <- row_text_from_exc headers (S i) rest ;;
      Ok (part ++ more)
  end.

Definition format_row_exc (headers : list str) (line : str)
  : result (list str) :=
  if startswith [PIPE] line && endswith [PIPE] line then
    let cells := cells_of line in
    if nonempty cells && existsb truthy cells then
      row_text <- row_text_from_exc headers 0 cells ;;
      Ok (if nonempty row_text then [join (lit " | ") row_text] else [])
    else Ok []
  else Ok [].

Fixpoint formatted_lines_exc (headers data_lines : list str)
  : result (list str) :=
  match data_lines with
  | [] => Ok []
  | line :: rest =>
      row <- format_row_exc headers line ;;
      more <- formatted_lines_exc headers rest ;;
      Ok (row ++ more)
  end.

Definition format_markdown_table_exc (table_text : str) : result str :=
  let lines := table_rows table_text in
  if Nat.ltb (List.length lines) 1 then Ok []
  else
    header_line <- (if nonempty lines then getitem lines 0 else Ok []) ;;
    let data_lines := data_lines_of (tl lines) in
    if negb (startswith [PIPE] header_line) then Ok (plain_fallback table_text)
    else
      let headers := headers_of header_line in
      formatted_lines <- formatted_lines_exc headers data_lines ;;
      if negb (nonempty formatted_lines) then Ok (plain_fallback table_text)
      else Ok (join BSN formatted_lines).

(** ** The passes of the normalizer *)

Local Open Scope nat_scope.

(** Index of the first occurrence of [p] in [s]. *)
Fixpoint find (p s : str) : option nat :=
  if startswith p s then Some 0
  else match s with
       | [] => None
       | _ :: s' => option_map S (find p s')
       end.

(** Length of the longest prefix of [s] whose characters satisfy [f]. *)
Fixpoint span_len (f : char -> bool) (s : str) : nat :=
  match s with
  | [] => 0
  | c :: s' => if f c then S (span_len f s') else 0
  end.

(** Step 1, lines 16-30.  [end_frontmatter] starts at -1 and takes the
    index of the first later line that trims to three dashes. *)
Fixpoint find_end_frontmatter (lines : list str) (i : Z) : Z :=
  match lines with
  | [] => (-1)%Z
  | line :: rest =>
      if str_eqb (strip line) (lit "---") then i
      else find_end_frontmatter rest (i + 1)%Z
  end.

Definition strip_frontmatter (markdown_content : str) : str :=
  let lines := splitlines markdown_content in
  match lines with
  | first :: rest =>
      if str_eqb (strip first) (lit "---") then
        let end_frontmatter := find_end_frontmatter rest 1%Z in
        if (0 <? end_frontmatter)%Z
        then join BSN (skipn (Z.to_nat (end_frontmatter + 1)) lines)
        else markdown_content
      else markdown_content
  | [] => markdown_content
  end.

(** Lines 33-45. *)
Definition metadata_keys : list str :=
  map lit ["title"; "description"; "contentType"; "tags"; "hide";
           "aliases"; "priority"; "redirect_from"]%string.

Definition is_metadata_line (line : str) : bool :=
  let stripped_line := strip line in
  startswith (lit "https://www.notion.so/n8n/Frontmatter-") stripped_line
  || existsb (fun key => startswith (key ++ lit ":") stripped_line)
             metadata_keys.

Definition strip_metadata_lines (content_without_frontmatter : str) : str :=
  join BSN (filter (fun line => negb (is_metadata_line line))
                   (splitlines content_without_frontmatter)).

(** [re.sub(op .*? cl, '', s, flags=re.DOTALL)] for literal, non-empty
    delimiters: from the left, each [op] that has a [cl] after it is
    removed together with everything up to the first such [cl]. *)
Fixpoint remove_spans_go (op cl s : str) (skip : nat) : str :=
  match s with
  | [] => []
  | c :: s' =>
      match skip with
      | S k => remove_spans_go op cl s' k
      | O =>
          if startswith op s then
            match find cl (skipn (List.length op) s) with
            | Some k =>
                remove_spans_go op cl s'
                  (pred (List.length op + k + List.length cl))
            | None => c :: remove_spans_go op cl s' 0
            end
          else c :: remove_spans_go op cl s' 0
      end
  end.

Definition remove_spans (op cl s : str) : str := remove_spans_go op cl s 0.

(** Step 2, line 49. *)
Definition remove_code_blocks : str -> str :=
  remove_spans (lit "```") (lit "```").

(** Step 3, line 55: the pattern is a backtick, one or more characters
    other than a backtick, a backtick.  The replacement is the raw string
    of a doubled backslash and the digit 1, which [re.sub] expands to ONE
    backslash followed by the digit: the span is not kept, every match
    becomes that two-character text. *)
Definition BACKTICK : char := chr "`".

Fixpoint unwrap_inline_code_go (s : str) (skip : nat) : str :=
  match s with
  | [] => []
  | c :: s' =>
      match skip with
      | S k => unwrap_inline_code_go s' k
      | O =>
          let n := span_len (fun d => negb (d =? BACKTICK)%N) s' in
          if (c =? BACKTICK)%N && (0 <? n) && (n <? List.length s')
          then lit "\1" ++ unwrap_inline_code_go s' (S n)
          else c :: unwrap_inline_code_go s' 0
      end
  end.

Definition unwrap_inline_code (s : str) : str := unwrap_inline_code_go s 0.

(** Step 4, line 61: with its doubled backslashes the pattern reads: a
    backslash, one character of the class [\ [ . * ?], a backslash, a
    closing bracket. *)
Definition macro_match (s : str) : bool :=
  match s with
  | a :: b :: c :: d :: _ =>
      (a =? chr "\")%N
      && existsb (N.eqb b) (lit "\[.*?")
      && (c =? chr "\")%N && (d =? chr "]")%N
  | _ => false
  end.

Fixpoint remove_macros_go (s : str) (skip : nat) : str :=
  match s with
  | [] => []
  | c :: s' =>
      match skip with
      | S k => remove_macros_go s' k
      | O => if macro_match s then remove_macros_go s' 3
             else c :: remove_macros_go s' 0
      end
  end.

Definition remove_macros (s : str) : str := remove_macros_go s 0.

(** Steps 5 and 6, lines 67 and 73. *)
Definition remove_service_blocks : str -> str :=
  remove_spans (lit "///") (lit "///").

Definition remove_html_comments : str -> str :=
  remove_spans (lit "<!--") (lit "-->").

(** Step 7, line 79: the marker, a backslash, any number of letters s, a
    double quote, then up to the next double quote on the same line (the
    dot does not match a line feed). *)
Definition QUOTE : char := 34%N.

Fixpoint find_quote (s : str) : option nat :=
  match s with
  | [] => None
  | c :: s' =>
      if (c =? QUOTE)%N then Some 0
      else if (c =? LF)%N then None
      else option_map S (find_quote s')
  end.

Definition snippet_match (s : str) : option nat :=
  let marker := lit "--8<--\" in
  if startswith marker s then
    let r := skipn (List.length marker) s in
    let n := span_len (fun d => (d =? chr "s")%N) r in
    match skipn n r with
    | q :: r' =>
        if (q =? QUOTE)%N then
          match find_quote r' with
          | Some k => Some (List.length marker + n + 1 + k + 1)
          | None => None
          end
        else None
    | [] => None
    end
  else None.

Fixpoint remove_snippets_go (s : str) (skip : nat) : str :=
  match s with
  | [] => []
  | c :: s' =>
      match skip with
      | S k => remove_snippets_go s' k
      | O => match snippet_match s with
             | Some len => remove_snippets_go s' (pred len)
             | None => c :: remove_snippets_go s' 0
             end
      end
  end.

Definition remove_snippets (s : str) : str := remove_snippets_go s 0.

(** Step 8, line 85: the scheme, then one or more characters outside the
    class, which with its doubled backslashes holds the backslash, the
    letter s and the closing parenthesis (white space is not in it). *)
Definition url_char (d : char) : bool :=
  negb (existsb (N.eqb d) (lit "\s\)")).

Definition url_match (s : str) : option nat :=
  let try (scheme : str) :=
    if startswith scheme s then
      let n := span_len url_char (skipn (List.length scheme) s) in
      if 0 <? n then Some (List.length scheme + n) else None
    else None in
  match try (lit "https://") with
  | Some len => Some len
  | None => try (lit "http://")
  end.

Fixpoint remove_urls_go (s : str) (skip : nat) : str :=
  match s with
  | [] => []
  | c :: s' =>
      match skip with
      | S k => remove_urls_go s' k
      | O => match url_match s with
             | Some len => remove_urls_go s' (pred len)
             | None => c :: remove_urls_go s' 0
             end
      end
  end.

Definition remove_urls (s : str) : str := remove_urls_go s 0.

(** Steps 9 and 10, lines 91 and 97.  Both patterns are rejected by [re]:
    with the doubled backslashes, the text after the first literal
    backslash opens a character class that ends at the first closing
    bracket, and the parenthesis that follows closes no group.  [re.sub]
    raises, the bare [except] swallows it, and the content is kept. *)
Definition unwrap_markdown_links (s : str) : str := s.
Definition unwrap_reference_links (s : str) : str := s.

(** Step 11, lines 102-107. *)
Definition is_link_definition (line : str) : bool :=
  startswith (lit "[") (strip line) && contains (lit "]: ") line.

Definition remove_link_definitions (s : str) : str :=
  join BSN (filter (fun line => negb (is_link_definition line))
                   (split BSN s)).

(** ** Table extraction and restoration *)

(** [table_placeholders]: a dict, kept in insertion order as [items()]
    yields it. *)
Definition placeholders := list (str * str).

(** [d[k] = v] *)
Fixpoint dict_set (k v : str) (d : placeholders) : placeholders :=
  match d with
  | [] => [(k, v)]
  | (k', v') :: d' =>
      if str_eqb k' k then (k, v) :: d' else (k', v') :: dict_set k v d'
  end.

(** The f-string of line 128. *)
Definition placeholder_token (n : nat) : str :=
  lit "__TABLE_PLACEHOLDER_" ++ str_of_nat n ++ lit "__".

(** [lines[i].strip().startswith('|')] *)
Definition is_table_line (line : str) : bool :=
  startswith [PIPE] (strip line).

(** Lines 126-133, for the run [table_lines] just collected; the state is
    [(processed_content, table_placeholders)]. *)
Definition register_table (table_lines : list str)
    (st : str * placeholders) : str * placeholders :=
  let '(processed_content, table_placeholders) := st in
  if nonempty table_lines then
    let table_text := join BSN table_lines in
    let placeholder := placeholder_token (List.length table_placeholders) in
    let formatted_table := format_markdown_table table_text in
    (replace_first table_text placeholder processed_content,
     dict_set placeholder formatted_table table_placeholders)
  else st.

(** The loop of lines 117-135 over the lines that remain.  [table_lines]
    is the run of pipe lines the inner loop is collecting: it grows while
    pipe lines follow one another and is registered when the run ends, at
    a line that is not a pipe line or at the end of the text. *)
Fixpoint scan_tables (lines table_lines : list str)
    (st : str * placeholders) : str * placeholders :=
  match lines with
  | [] => register_table table_lines st
  | line :: rest =>
      if is_table_line line
      then scan_tables rest (table_lines ++ [line]) st
      else scan_tables rest [] (register_table table_lines st)
  end.

(** Step 12, lines 111-137. *)
Definition extract_tables (cleaned_markdown_content : str)
  : str * placeholders :=
  scan_tables (split BSN cleaned_markdown_content) []
              (cleaned_markdown_content, []).

(** Step 14, lines 153-154. *)
Definition restore_tables (table_placeholders : placeholders) (text : str)
  : str :=
  fold_left (fun text entry => replace (fst entry) (snd entry) text)
            table_placeholders text.

(** ** Final cleanup *)

(** Line 165: the pattern is a backslash followed by three or more
    letters n; the replacement template expands to two line feeds. *)
Fixpoint collapse_breaks_go (s : str) (skip : nat) : str :=
  match s with
  | [] => []
  | c :: s' =>
      match skip with
      | S k => collapse_breaks_go s' k
      | O =>
          let n := span_len (fun d => (d =? chr "n")%N) s' in
          if (c =? chr "\")%N && (3 <=? n)
          then LF :: LF :: collapse_breaks_go s' n
          else c :: collapse_breaks_go s' 0
      end
  end.

Definition collapse_breaks (s : str) : str := collapse_breaks_go s 0.

(** Step 15, lines 158-169. *)
Definition final_cleanup (text : str) : str :=
  let lines := map strip (filter (fun line => truthy (strip line))
                                 (splitlines text)) in
  let final_text := join BSN lines in
  strip (collapse_breaks final_text).

(** ** The normalizer *)

Section Normalizer.

(** Step 13, lines 140-150: the text of the HTML that the Markdown
    library renders, or the content itself when that raises.  The
    library is not part of the program; it is a parameter here. *)
Variable md_to_text : str -> str.

(** Steps 1 to 11. *)
Definition clean_markup (markdown_content : str) : str :=
  remove_link_definitions
    (unwrap_reference_links
      (unwrap_markdown_links
        (remove_urls
          (remove_snippets
            (remove_html_comments
              (remove_service_blocks
                (remove_macros
                  (unwrap_inline_code
                    (remove_code_blocks
                      (strip_metadata_lines
                        (strip_frontmatter markdown_content))))))))))).

Definition extract_text_from_markdown (markdown_content : str) : str :=
  let '(processed_content, table_placeholders) :=
    extract_tables (clean_markup markdown_content) in
  let text := md_to_text processed_content in
  final_cleanup (restore_tables table_placeholders text).

(** ** The corpus builder *)

Record CleanedRecord := mkRecord { file_path : str; content : str }.

(** The test of line 244. *)
Definition long_enough (clean_text : str) : bool :=
  truthy clean_text && (50 <? List.length (strip clean_text)).

(** One file of the walk: its relative path and what reading it gave
    ([None] when the read raised; the error is logged and the file left
    out).  The accumulator is [documentation_data]. *)
Definition process_file (documentation_data : list CleanedRecord)
    (file : str * option str) : list CleanedRecord :=
  let '(relative_path, read) := file in
  if endswith (lit ".md") relative_path then
    match read with
    | Some markdown_content =>
        let clean_text := extract_text_from_markdown markdown_content in
        if long_enough clean_text
        then documentation_data ++ [mkRecord relative_path clean_text]
        else documentation_data
    | None => documentation_data
    end
  else documentation_data.

Definition process_documentation (files : list (str * option str))
  : list CleanedRecord :=
  fold_left process_file files [].

End Normalizer.

(** The renderer on text without markup, and of the [except] branch of
    line 150: the content comes back as it is. *)
Definition md_plain (s : str) : str := s.

(** ** Vocabulary of the statements *)

(** A text given by its lines, joined with line feeds. *)
Definition text_of_lines (ls : list string) : str := join [LF] (map lit ls).

(** A header line is well formed when it starts and ends with a pipe and
    gives at least one label. *)
Definition header_well_formed (table_text : str) : bool :=
  match table_rows table_text with
  | [] => false
  | header_line :: _ =>
      startswith [PIPE] header_line && endswith [PIPE] header_line
      && nonempty (headers_of header_line)
  end.

Definition no_pipe (s : str) : Prop := ~ In PIPE s.


(** The separator does not occur in the line. *)
Definition no_BSN (l : str) : Prop := contains BSN l = false.

(** A line without pipes, and a pipe line, of a text whose lines are
    joined by the separator. *)
Definition plain_line (l : str) : Prop := no_pipe l /\ no_BSN l.
Definition pipe_line (l : str) : Prop := is_table_line l = true /\ no_BSN l.

(** What stands before and after a group of lines in a joined text. *)
Definition lead (before : list str) : str :=
  match before with
  | [] => []
  | _ :: _ => join BSN before ++ BSN
  end.

Definition trail (after : list str) : str :=
  match after with
  | [] => []
  | _ :: _ => BSN ++ join BSN after
  end.

(** The keys are the tokens of the ordinals 0, 1, ... in order. *)
Definition keys_by_ordinal (d : placeholders) : Prop :=
  map fst d = map placeholder_token (seq 0 (List.length d)).




(** The maximal runs of consecutive pipe lines of a text, in order. *)
Definition cons_block (l : str) (blocks : list (list str)) : list (list str) :=
  match blocks with
  | [] => [[l]]
  | b :: bs => (l :: b) :: bs
  end.

Fixpoint table_blocks (lines : list str) : list (list str) :=
  match lines with
  | [] => []
  | l :: rest =>
      if is_table_line l then
        match rest with
        | r :: _ => if is_table_line r
                    then cons_block l (table_blocks rest)
                    else [l] :: table_blocks rest
        | [] => [[l]]
        end
      else table_blocks rest
  end.

(** The entries for a list of blocks, numbered from [k]. *)
Fixpoint entries_from (k : nat) (blocks : list (list str)) : placeholders :=
  match blocks with
  | [] => []
  | b :: bs =>
      (placeholder_token k, format_markdown_table (join BSN b))
      :: entries_from (S k) bs
  end.

(** A table line written from its cells: a pipe and a space, the cells
    with [" | "] between them, a space and a pipe. *)
Definition row_line (cells : list str) : str :=
  lit "| " ++ join (lit " | ") cells ++ lit " |".

(** The parts of a row whose cells are all non-empty: the cell after its
    label while labels last, the bare cell afterwards. *)
Fixpoint labelled (headers cells : list str) : list str :=
  match cells with
  | [] => []
  | cell :: cells' =>
      match headers with
      | h :: headers' => (h ++ lit ": " ++ cell) :: labelled headers' cells'
      | [] => cell :: labelled [] cells'
      end
  end.

(** A cell as a table is usually written: non-empty, trimmed, without a
    pipe and without a backslash. *)
Definition clean_cell (x : str) : Prop :=
  x <> [] /\ strip x = x /\ no_pipe x /\ ~ In (chr "\") x.

(** A data row: at least one cell, clean cells, and some character that
    is not one of those of a separator line. *)
Definition data_row (cells : list str) : Prop :=
  cells <> [] /\ Forall clean_cell cells
  /\ exists cell c, In cell cells /\ In c cell
                    /\ existsb (N.eqb c) (lit "|\t -:") = false.

(** A cell between two spaces, followed by a pipe. *)
Definition pad_cell (cell : str) : str := SPACE :: cell ++ [SPACE; PIPE].

(** What follows the first part in a join. *)
Definition trail_gen (sep : str) (rest : list str) : str :=
  match rest with
  | [] => []
  | _ :: _ => sep ++ join sep rest
  end.

(** A line of plain prose: non-empty and trimmed, without a line
    boundary, without the characters the passes look for (backtick,
    backslash, slash, [<], the square brackets and the pipe), not a
    metadata line, and not starting with two letters n. *)
Definition prose_line (l : str) : bool :=
  truthy l && str_eqb (strip l) l
  && forallb (fun c => negb (is_linebreak c)) l
  && forallb (fun c => negb (existsb (N.eqb c) (lit "`\/<[]|"))) l
  && negb (is_metadata_line l)
  && negb (startswith (lit "nn") l).

(** * Properties *)

(** ** Facts about the string operations *)

Lemma str_eqb_eq (a b : str) : str_eqb a b = true <-> a = b.
Proof.
  unfold str_eqb. destruct (list_eq_dec N.eq_dec a b); split; congruence.
Qed.

Lemma truthy_false (s : str) : truthy s = false <-> s = [].
Proof. destruct s; simpl; split; congruence. Qed.

Lemma truthy_true (s : str) : truthy s = true <-> s <> [].
Proof. destruct s; simpl; split; congruence. Qed.

Lemma lstrip_incl (s : str) (c : char) : In c (lstrip s) -> In c s.
Proof.
  induction s as [|d s IH]; simpl; [tauto|].
  destruct (isspace d); simpl; tauto.
Qed.

Lemma rstrip_incl (s : str) (c : char) : In c (rstrip s) -> In c s.
Proof.
  induction s as [|d s IH]; simpl; [tauto|].
  destruct (rstrip s) as [|e r].
  - destruct (isspace d); simpl; tauto.
  - simpl in *. tauto.
Qed.

Lemma strip_incl (s : str) (c : char) : In c (strip s) -> In c s.
Proof. unfold strip. intros H. now apply lstrip_incl, rstrip_incl. Qed.

Lemma lstrip_nil (s : str) : lstrip s = [] <-> forallb isspace s = true.
Proof.
  induction s as [|d s IH]; simpl; [tauto|].
  destruct (isspace d); simpl; [exact IH|]. split; discriminate.
Qed.




(** Replacing a one-character string is a map over the characters. *)
Lemma replace_char (a b : char) (s : str) :
  replace [a] [b] s = map (fun c => if (c =? a)%N then b else c) s.
Proof.
  unfold replace. induction s as [|c s IH]; simpl; [reflexivity|].
  rewrite (N.eqb_sym a c). destruct (c =? a)%N; simpl.
  - destruct s; simpl in *; now rewrite ?IH.
  - now rewrite IH.
Qed.

(** ** The formatter never reaches a raise *)

Lemma row_text_from_exc_ok (headers cells : list str) (i : nat) :
  row_text_from_exc headers i cells = Ok (row_text_from headers i cells).
Proof.
  revert i. induction cells as [|cell rest IH]; intros i; simpl; [reflexivity|].
  rewrite IH. destruct (truthy cell); simpl; [|reflexivity].
  unfold getitem.
  destruct (Nat.ltb i (List.length headers)) eqn:E.
  - apply Nat.ltb_lt in E.
    destruct (nth_error headers i) as [h|] eqn:N; simpl.
    + now destruct (truthy h).
    + apply nth_error_None in N. lia.
  - apply Nat.ltb_ge, nth_error_None in E. now rewrite E.
Qed.

Lemma format_row_exc_ok (headers : list str) (line : str) :
  format_row_exc headers line = Ok (format_row headers line).
Proof.
  unfold format_row_exc, format_row.
  destruct (startswith [PIPE] line && endswith [PIPE] line); [|reflexivity].
  destruct (nonempty (cells_of line) && existsb truthy (cells_of line));
    [|reflexivity].
  now rewrite row_text_from_exc_ok.
Qed.

Lemma formatted_lines_exc_ok (headers data_lines : list str) :
  formatted_lines_exc headers data_lines
  = Ok (formatted_lines_of headers data_lines).
Proof.
  induction data_lines as [|line rest IH]; simpl; [reflexivity|].
  now rewrite format_row_exc_ok, IH.
Qed.

Lemma format_markdown_table_exc_ok (table_text : str) :
  format_markdown_table_exc table_text
  = Ok (format_markdown_table table_text).
Proof.
  unfold format_markdown_table_exc, format_markdown_table.
  destruct (table_rows table_text) as [|header_line rest];
    [reflexivity|].
  cbn [List.length Nat.ltb Nat.leb nonempty getitem nth_error bind tl].
  destruct (startswith [PIPE] header_line);
    cbn [negb]; [|reflexivity].
  rewrite formatted_lines_exc_ok. cbn [bind].
  now destruct (formatted_lines_of _ _).
Qed.

(** ** The formatter on the two-column example *)

(** On the text as the normalizer builds it at line 127, the lines joined
    by the two characters backslash and n, the table with header line
    [| A | B |] and the data row [| 1 | 2 |] formats to [A: 1 | B: 2],
    also with a separator line of dashes, colons and spaces between the
    two. *)
Lemma two_column_table_joined :
  format_markdown_table (join BSN [lit "| A | B |"; lit "| 1 | 2 |"])
  = lit "A: 1 | B: 2"
  /\ format_markdown_table
       (join BSN [lit "| A | B |"; lit "|---|---|"; lit "| 1 | 2 |"])
     = lit "A: 1 | B: 2"
  /\ format_markdown_table
       (join BSN [lit "| A | B |"; lit "| --- | --- |"; lit "| 1 | 2 |"])
     = lit "A: 1 | B: 2"
  /\ format_markdown_table
       (join BSN [lit "| A | B |"; lit "|:--|--:|"; lit "| 1 | 2 |"])
     = lit "A: 1 | B: 2".
Proof. repeat split; vm_compute; reflexivity. Qed.

(** C3 fails on the code.  The formatter cuts its text at the two
    characters backslash and n (line 176), not at line feeds.  The table
    with header line [| A | B |] and data row [| 1 | 2 |], written with a
    line feed between the two, is one single line for it: no data row is
    found and the fallback returns the text with its pipes turned into
    spaces, with or without a separator line.  And the separator test of
    line 186 knows a backslash and the letter t instead of the tab: a
    separator line that holds a tab is formatted as a data row. *)
Theorem C3_line_feed_table_falls_back :
  table_rows (text_of_lines ["| A | B |"; "| 1 | 2 |"]%string)
  = [text_of_lines ["| A | B |"; "| 1 | 2 |"]%string]
  /\ format_markdown_table (text_of_lines ["| A | B |"; "| 1 | 2 |"]%string)
     = lit "A   B  " ++ [LF] ++ lit "  1   2"
  /\ format_markdown_table
       (text_of_lines ["| A | B |"; "|---|---|"; "| 1 | 2 |"]%string)
     = lit "A   B  " ++ [LF] ++ lit " --- --- " ++ [LF] ++ lit "  1   2"
  /\ format_markdown_table
       (join BSN [lit "| A | B |"; lit "|---|" ++ [9%N] ++ lit "---|";
                  lit "| 1 | 2 |"])
     = lit "A: --- | B: ---\nA: 1 | B: 2"
  /\ format_markdown_table (text_of_lines ["| A | B |"; "| 1 | 2 |"]%string)
     <> lit "A: 1 | B: 2".
Proof. vm_compute. repeat split. discriminate. Qed.

(** ** The fallback of the formatter *)

(** X18.  For a table text that has a first non-blank line, as the
    formatter cuts its lines: when that line does not start with a pipe,
    and when no formatted row results, the formatter returns the text
    with every pipe replaced by a space, trimmed; and the formatter
    raises on no input at all. *)
Theorem fallback_replaces_pipes
    (table_text header_line : str) (rest : list str) :
  table_rows table_text = header_line :: rest ->
  startswith [PIPE] header_line = false
  \/ formatted_lines_of (headers_of header_line) (data_lines_of rest) = [] ->
  format_markdown_table table_text
  = strip (map (fun c => if (c =? PIPE)%N then SPACE else c) table_text)
  /\ forall any_text,
       format_markdown_table_exc any_text
       = Ok (format_markdown_table any_text).
Proof.
  intros Hrows Hcase. split; [|apply format_markdown_table_exc_ok].
  unfold format_markdown_table. rewrite Hrows.
  unfold plain_fallback. rewrite replace_char.
  destruct Hcase as [H|H]; rewrite H; [reflexivity|].
  now destruct (startswith [PIPE] header_line).
Qed.

Lemma fallback_replaces_pipes_witness :
  format_markdown_table (lit "A | B\n1 | 2") = lit "A   B\n1   2"
  /\ format_markdown_table (lit "| A | B |\n|---|---|")
     = lit "A   B  \n --- ---".
Proof.
  split.
  - destruct (fallback_replaces_pipes (lit "A | B\n1 | 2") (lit "A | B")
                [lit "1 | 2"]) as [H _];
      [vm_compute; reflexivity | left; vm_compute; reflexivity |].
    rewrite H. vm_compute. reflexivity.
  - destruct (fallback_replaces_pipes (lit "| A | B |\n|---|---|")
                (lit "| A | B |") [lit "|---|---|"]) as [H _];
      [vm_compute; reflexivity | right; vm_compute; reflexivity |].
    rewrite H. vm_compute. reflexivity.
Defined.

(** C6 fails on the code.  The text made of the two characters backslash
    and n holds no pipe, so with every pipe replaced by a space and
    trimmed it is itself.  The formatter cuts it at those very two
    characters (line 176): it sees two empty lines and no formatted row,
    and the guard of line 178 returns the empty string. *)
Theorem C6_no_line_returns_empty :
  table_rows BSN = []
  /\ format_markdown_table BSN = []
  /\ strip (map (fun c => if (c =? PIPE)%N then SPACE else c) BSN) = BSN
  /\ format_markdown_table BSN
     <> strip (map (fun c => if (c =? PIPE)%N then SPACE else c) BSN).
Proof. vm_compute. repeat split. discriminate. Qed.

(** ** The minimum-length filter *)

Section Filter.

Variable md_to_text : str -> str.

Lemma app_one_neq {A} (l : list A) (a : A) : l ++ [a] <> l.
Proof.
  intros H. apply (f_equal (@List.length A)) in H.
  rewrite length_app in H. simpl in H. lia.
Qed.

(** C7.  For a Markdown file that was read, a record is appended if and
    only if the cleaned content is non-empty and its trimmed length is
    greater than 50; at trimmed length 50 nothing is appended, at 51
    the record is. *)
Theorem C7_record_iff_longer_than_50
    (documentation_data : list CleanedRecord)
    (relative_path markdown_content : str) :
  endswith (lit ".md") relative_path = true ->
  let clean_text := extract_text_from_markdown md_to_text markdown_content in
  let after := process_file md_to_text documentation_data
                 (relative_path, Some markdown_content) in
  let emitted := documentation_data ++ [mkRecord relative_path clean_text] in
  (after = emitted
   <-> clean_text <> [] /\ 50 < List.length (strip clean_text))
  /\ (after = documentation_data
      <-> ~ (clean_text <> [] /\ 50 < List.length (strip clean_text)))
  /\ (List.length (strip clean_text) = 50 -> after = documentation_data)
  /\ (List.length (strip clean_text) = 51 -> after = emitted).
Proof.
  intros Hmd clean_text after emitted.
  assert (Hafter : after = if long_enough clean_text then emitted
                           else documentation_data).
  { unfold after, process_file. now rewrite Hmd. }
  assert (Hlong : long_enough clean_text = true
                  <-> clean_text <> [] /\ 50 < List.length (strip clean_text)).
  { unfold long_enough. rewrite andb_true_iff, truthy_true, Nat.ltb_lt.
    tauto. }
  assert (Hne : emitted <> documentation_data) by apply app_one_neq.
  rewrite Hafter.
  destruct (long_enough clean_text) eqn:E.
  - assert (H := proj1 Hlong eq_refl).
    repeat split; try tauto; try lia; try congruence.
  - assert (H : ~ (clean_text <> [] /\ 50 < List.length (strip clean_text))).
    { intros H. apply Hlong in H. discriminate. }
    repeat split; try tauto; try congruence.
    intros H51. exfalso. apply H. split; [|lia].
    intros ->. discriminate.
Qed.

Lemma process_file_In (data : list CleanedRecord)
    (file : str * option str) (r : CleanedRecord) :
  In r (process_file md_to_text data file)
  <-> In r data
      \/ exists markdown_content,
           snd file = Some markdown_content
           /\ endswith (lit ".md") (fst file) = true
           /\ r = mkRecord (fst file)
                    (extract_text_from_markdown md_to_text markdown_content)
           /\ long_enough
                (extract_text_from_markdown md_to_text markdown_content)
              = true.
Proof.
  destruct file as [p read]. unfold process_file. simpl.
  destruct (endswith (lit ".md") p) eqn:Emd.
  - destruct read as [c|].
    + destruct (long_enough (extract_text_from_markdown md_to_text c)) eqn:El.
      * rewrite in_app_iff. simpl. split.
        -- intros [H|[H|[]]]; [now left|]. right. exists c. auto.
        -- intros [H|(c' & Hc & _ & Hr & _)]; [now left|].
           inversion Hc; subst. right. now left.
      * split; [now left|].
        intros [H|(c' & Hc & _ & _ & Hl)]; [exact H|].
        inversion Hc; subst. congruence.
    + split; [now left|]. intros [H|(c' & Hc & _)]; [exact H|discriminate].
  - split; [now left|].
    intros [H|(c' & _ & Hm & _)]; [exact H|discriminate].
Qed.

(** X3.  The same over a whole walk: the records produced are exactly those
    of the Markdown files that were read and pass the test. *)
Lemma process_documentation_records
    (files : list (str * option str)) (r : CleanedRecord) :
  In r (process_documentation md_to_text files)
  <-> exists relative_path markdown_content,
        In (relative_path, Some markdown_content) files
        /\ endswith (lit ".md") relative_path = true
        /\ r = mkRecord relative_path
                 (extract_text_from_markdown md_to_text markdown_content)
        /\ long_enough
             (extract_text_from_markdown md_to_text markdown_content) = true.
Proof.
  unfold process_documentation.
  assert (G : forall data,
    In r (fold_left (process_file md_to_text) files data)
    <-> In r data \/ exists relative_path markdown_content,
        In (relative_path, Some markdown_content) files
        /\ endswith (lit ".md") relative_path = true
        /\ r = mkRecord relative_path
                 (extract_text_from_markdown md_to_text markdown_content)
        /\ long_enough
             (extract_text_from_markdown md_to_text markdown_content) = true).
  { induction files as [|[p read] files IH]; intros data;
      cbn [fold_left].
    - split; [tauto|]. intros [H|(_ & _ & [] & _)]. exact H.
    - rewrite IH, process_file_In. cbn [fst snd In]. split.
      + intros [[H|(c & -> & R)]|(p' & c' & H & R)].
        * now left.
        * right. exists p, c. auto.
        * right. exists p', c'. auto.
      + intros [H|(p' & c' & [H|H] & R)].
        * left. now left.
        * inversion H; subst. left. right. exists c'. auto.
        * right. exists p', c'. auto. }
  rewrite G. simpl. tauto.
Qed.

End Filter.

Lemma C7_boundary_witness :
  process_file md_plain []
    (lit "a.md", Some (lit "12345678901234567890123456789012345678901234567890"))
  = []
  /\ process_file md_plain []
       (lit "a.md",
        Some (lit "123456789012345678901234567890123456789012345678901"))
     = [mkRecord (lit "a.md")
          (lit "123456789012345678901234567890123456789012345678901")].
Proof.
  split.
  - destruct (C7_record_iff_longer_than_50 md_plain [] (lit "a.md")
                (lit "12345678901234567890123456789012345678901234567890"))
      as (_ & _ & H50 & _); [vm_compute; reflexivity|].
    apply H50. vm_compute. reflexivity.
  - destruct (C7_record_iff_longer_than_50 md_plain [] (lit "a.md")
                (lit "123456789012345678901234567890123456789012345678901"))
      as (_ & _ & _ & H51); [vm_compute; reflexivity|].
    apply H51. vm_compute. reflexivity.
Defined.

(** ** Frontmatter *)

Lemma find_end_frontmatter_none (lines : list str) (i : Z) :
  (forall l, In l lines -> strip l <> lit "---") ->
  find_end_frontmatter lines i = (-1)%Z.
Proof.
  revert i. induction lines as [|line rest IH]; intros i H; simpl;
    [reflexivity|].
  destruct (str_eqb (strip line) (lit "---")) eqn:E.
  - apply str_eqb_eq in E. exfalso. apply (H line); simpl; auto.
  - apply IH. intros l Hl. apply H. simpl. auto.
Qed.

Lemma find_end_frontmatter_found (lines : list str) (i : Z) :
  find_end_frontmatter lines i <> (-1)%Z ->
  exists closing, In closing lines /\ strip closing = lit "---".
Proof.
  revert i. induction lines as [|line rest IH]; intros i H; simpl in H;
    [congruence|].
  destruct (str_eqb (strip line) (lit "---")) eqn:E.
  - apply str_eqb_eq in E. exists line. simpl. auto.
  - destruct (IH _ H) as (c & Hc & Hs). exists c. simpl. auto.
Qed.

Lemma find_end_frontmatter_at (before after : list str) (closing : str)
    (i : Z) :
  (forall l, In l before -> strip l <> lit "---") ->
  strip closing = lit "---" ->
  find_end_frontmatter (before ++ closing :: after) i
  = (i + Z.of_nat (List.length before))%Z.
Proof.
  revert i. induction before as [|line rest IH]; intros i H Hc.
  - simpl. apply str_eqb_eq in Hc. rewrite Hc. lia.
  - cbn [app find_end_frontmatter].
    destruct (str_eqb (strip line) (lit "---")) eqn:E.
    + apply str_eqb_eq in E. exfalso. apply (H line); simpl; auto.
    + rewrite IH; auto.
      * cbn [List.length]. lia.
      * intros l Hl. apply H. simpl. auto.
Qed.

(** C5, as the code has it.  The pass changes the content only when the
    first line, once trimmed, is three dashes and some later line trims
    to three dashes as well; white space around the dashes does not
    prevent it.  When it triggers, what remains is the lines after the
    first such later line. *)
Theorem C5_frontmatter_trigger (markdown_content : str) :
  (strip_frontmatter markdown_content <> markdown_content ->
   exists first rest closing,
     splitlines markdown_content = first :: rest
     /\ strip first = lit "---"
     /\ In closing rest /\ strip closing = lit "---")
  /\ (forall first before closing after,
        splitlines markdown_content = first :: before ++ closing :: after ->
        strip first = lit "---" ->
        (forall l, In l before -> strip l <> lit "---") ->
        strip closing = lit "---" ->
        strip_frontmatter markdown_content = join BSN after).
Proof.
  unfold strip_frontmatter. split.
  - destruct (splitlines markdown_content) as [|first rest]; [congruence|].
    destruct (str_eqb (strip first) (lit "---")) eqn:E; [|congruence].
    apply str_eqb_eq in E.
    destruct (0 <? find_end_frontmatter rest 1)%Z eqn:F; [|congruence].
    intros _. apply Z.ltb_lt in F.
    destruct (find_end_frontmatter_found rest 1%Z) as (c & Hc & Hs); [lia|].
    exists first, rest, c. auto.
  - intros first before closing after -> Hfirst Hbefore Hclosing.
    apply str_eqb_eq in Hfirst. rewrite Hfirst.
    rewrite find_end_frontmatter_at by assumption.
    replace (0 <? 1 + Z.of_nat (List.length before))%Z with true
      by (symmetry; apply Z.ltb_lt; lia).
    f_equal.
    replace (Z.to_nat (1 + Z.of_nat (List.length before) + 1))
      with (S (List.length before + 1)) by lia.
    cbn [skipn]. rewrite skipn_app.
    rewrite (skipn_all2 before) by lia.
    replace (List.length before + 1 - List.length before) with 1 by lia.
    reflexivity.
Qed.

(** C5 as stated fails: a first line of three dashes with white space
    around them is treated as frontmatter, and so is such a closing
    line. *)
Lemma C5_counterexample :
  let doc := text_of_lines [" ---"; "title: x"; "--- "; "body"]%string in
  hd_error (splitlines doc) = Some (lit " ---")
  /\ lit " ---" <> lit "---"
  /\ strip_frontmatter doc = lit "body"
  /\ strip_frontmatter doc <> doc.
Proof. vm_compute. repeat split; discriminate. Qed.

Lemma C5_frontmatter_witness :
  strip_frontmatter
    (text_of_lines [" ---"; "title: x"; "--- "; "body"; "more"]%string)
  = lit "body\nmore"
  /\ exists first rest closing,
       splitlines (text_of_lines ["---"; "a"; "---"; "b"]%string)
       = first :: rest
       /\ strip first = lit "---"
       /\ In closing rest /\ strip closing = lit "---".
Proof.
  split.
  - apply (proj2 (C5_frontmatter_trigger _) (lit " ---") [lit "title: x"]
             (lit "--- ") [lit "body"; lit "more"]).
    + vm_compute. reflexivity.
    + vm_compute. reflexivity.
    + intros l [<-|[]]. vm_compute. discriminate.
    + vm_compute. reflexivity.
  - apply (proj1 (C5_frontmatter_trigger _)). vm_compute. discriminate.
Defined.

(** ** Pieces of a split *)

Lemma cons_head_In (c : char) (pieces : list str) (p : str) (x : char) :
  In p (cons_head c pieces) -> In x p ->
  x = c \/ exists q, In q pieces /\ In x q.
Proof.
  destruct pieces as [|q qs]; simpl.
  - intros [<-|[]] [->|[]]. now left.
  - intros [<-|H] Hx.
    + destruct Hx as [->|Hx]; [now left|]. right. exists q. auto.
    + right. exists p. auto.
Qed.

Lemma cons_head_Forall (P : str -> Prop) (c : char) (pieces : list str) :
  P [c] -> (forall p, P p -> P (c :: p)) ->
  Forall P pieces -> Forall P (cons_head c pieces).
Proof.
  intros H1 Hc HF. destruct HF; simpl; constructor; auto.
Qed.

(** The characters of the pieces are characters of the text. *)
Lemma split_go_incl (sep s : str) (skip : nat) (p : str) (x : char) :
  In p (split_go sep s skip) -> In x p -> In x s.
Proof.
  revert skip p. induction s as [|c s IH]; intros skip p; simpl.
  - intros [<-|[]] [].
  - destruct skip as [|k].
    + destruct (startswith sep (c :: s)).
      * intros [<-|H] Hx; [destruct Hx|]. right. eapply IH; eauto.
      * intros H Hx. destruct (cons_head_In _ _ _ _ H Hx) as [->|(q & Hq & Hxq)];
          [now left|]. right. eapply IH; eauto.
    + intros H Hx. right. eapply IH; eauto.
Qed.

Lemma split_incl (sep s p : str) (x : char) :
  In p (split sep s) -> In x p -> In x s.
Proof. apply split_go_incl. Qed.

(** Splitting on one character leaves it in no piece. *)
Lemma split_char_free (a : char) (s : str) :
  Forall (fun p => ~ In a p) (split [a] s).
Proof.
  unfold split. induction s as [|c s IH]; simpl.
  - constructor; [tauto|constructor].
  - destruct (a =? c)%N eqn:E; simpl.
    + constructor; [tauto|exact IH].
    + apply N.eqb_neq in E. apply cons_head_Forall; [| |exact IH].
      * simpl. intros [H|[]]. congruence.
      * simpl. intros p Hp [H|H]; [congruence|tauto].
Qed.

Lemma slice_1_m1_incl {A} (l : list A) (x : A) :
  In x (slice_1_m1 l) -> In x l.
Proof.
  unfold slice_1_m1. intros H.
  destruct l as [|a l]; simpl in *; [tauto|]. right.
  revert H. induction l as [|b l IH]; simpl; [tauto|].
  destruct l; simpl in *; [tauto|]. intros [H|H]; auto.
Qed.


(** ** Where the output of the formatter has pipes *)

Lemma no_pipe_strip (s : str) : no_pipe s -> no_pipe (strip s).
Proof. unfold no_pipe. intros H Hs. apply H. now apply strip_incl. Qed.

Lemma cells_of_no_pipe (line : str) : Forall no_pipe (cells_of line).
Proof.
  unfold cells_of. apply Forall_forall. intros cell H.
  apply in_map_iff in H. destruct H as (p & <- & Hp).
  apply no_pipe_strip. apply slice_1_m1_incl in Hp.
  exact (proj1 (Forall_forall _ _) (split_char_free PIPE line) _ Hp).
Qed.

Lemma headers_of_no_pipe (header_line : str) :
  Forall no_pipe (headers_of header_line).
Proof.
  unfold headers_of. apply Forall_forall. intros h H.
  apply in_map_iff in H. destruct H as (p & <- & Hp).
  apply no_pipe_strip. apply filter_In in Hp. destruct Hp as [Hp _].
  apply slice_1_m1_incl in Hp.
  exact (proj1 (Forall_forall _ _) (split_char_free PIPE header_line) _ Hp).
Qed.

Lemma row_text_from_no_pipe (headers cells : list str) (i : nat) :
  Forall no_pipe headers -> Forall no_pipe cells ->
  Forall no_pipe (row_text_from headers i cells).
Proof.
  intros Hh Hc. revert i. induction Hc as [|cell rest Hcell Hrest IH];
    intros i; simpl; [constructor|].
  apply Forall_app. split; [|apply IH].
  destruct (truthy cell); [|constructor].
  destruct (nth_error headers i) as [h|] eqn:N.
  - destruct (truthy h); constructor; auto.
    apply nth_error_In in N.
    assert (Hn : no_pipe h) by exact (proj1 (Forall_forall _ _) Hh _ N).
    unfold no_pipe in *. rewrite in_app_iff.
    intros [H|H]; [tauto|].
    change (In PIPE (58%N :: 32%N :: cell)) in H.
    destruct H as [H|[H|H]]; [discriminate|discriminate|tauto].
  - constructor; auto.
Qed.

Lemma formatted_lines_rows (headers data_lines : list str) :
  Forall no_pipe headers ->
  exists rows : list (list str),
    formatted_lines_of headers data_lines = map (join (lit " | ")) rows
    /\ Forall (Forall no_pipe) rows.
Proof.
  intros Hh. induction data_lines as [|line rest (rows & E & HF)].
  - exists []. split; [reflexivity|constructor].
  - unfold formatted_lines_of in *. cbn [flat_map]. rewrite E.
    unfold format_row.
    destruct (startswith [PIPE] line && endswith [PIPE] line);
      [|exists rows; auto].
    destruct (nonempty (cells_of line) && existsb truthy (cells_of line));
      [|exists rows; auto].
    destruct (nonempty (row_text_from headers 0 (cells_of line)));
      [|exists rows; auto].
    exists (row_text_from headers 0 (cells_of line) :: rows).
    split; [reflexivity|]. constructor; [|exact HF].
    apply row_text_from_no_pipe; [exact Hh|apply cells_of_no_pipe].
Qed.

Lemma plain_fallback_no_pipe (table_text : str) :
  no_pipe (plain_fallback table_text).
Proof.
  unfold plain_fallback. apply no_pipe_strip. rewrite replace_char.
  unfold no_pipe. intros H. apply in_map_iff in H.
  destruct H as (c & Hc & _).
  destruct (c =? PIPE)%N eqn:E; [discriminate|].
  apply N.eqb_neq in E. congruence.
Qed.

(** For every table text, the pipes of the output are those of the
    separators between the parts of a row. *)
Lemma format_markdown_table_pipes (table_text : str) :
  exists rows : list (list str),
    format_markdown_table table_text = join BSN (map (join (lit " | ")) rows)
    /\ Forall (Forall no_pipe) rows.
Proof.
  unfold format_markdown_table.
  destruct (table_rows table_text) as [|header_line rest].
  - exists []. split; [reflexivity|constructor].
  - assert (F : exists rows : list (list str),
               plain_fallback table_text
               = join BSN (map (join (lit " | ")) rows)
               /\ Forall (Forall no_pipe) rows).
    { exists [[plain_fallback table_text]]. split; [reflexivity|].
      repeat constructor. apply plain_fallback_no_pipe. }
    destruct (negb (startswith [PIPE] header_line)); [exact F|].
    destruct (negb (nonempty (formatted_lines_of (headers_of header_line)
                                (data_lines_of rest)))); [exact F|].
    destruct (formatted_lines_rows (headers_of header_line)
                (data_lines_of rest) (headers_of_no_pipe header_line))
      as (rows & E & HF).
    exists rows. rewrite E. auto.
Qed.

(** C1, as the code has it.  For a table text whose header line is well
    formed, the output is rows joined by the line separator, each row
    being parts joined by [" | "], and no part contains a pipe: the only
    pipes of the output are those of the separators between the parts of
    a row. *)
Theorem C1_pipes_only_between_parts (table_text : str) :
  header_well_formed table_text = true ->
  exists rows : list (list str),
    format_markdown_table table_text = join BSN (map (join (lit " | ")) rows)
    /\ Forall (Forall no_pipe) rows.
Proof. intros _. apply format_markdown_table_pipes. Qed.

(** C1 as stated fails: with a well-formed header and a row of two cells
    the output holds the pipe that joins the two parts. *)
Lemma C1_counterexample :
  header_well_formed (join BSN [lit "| A | B |"; lit "| 1 | 2 |"]) = true
  /\ format_markdown_table (join BSN [lit "| A | B |"; lit "| 1 | 2 |"])
     = lit "A: 1 | B: 2"
  /\ In PIPE (format_markdown_table
                (join BSN [lit "| A | B |"; lit "| 1 | 2 |"])).
Proof. vm_compute. repeat split. auto 20. Qed.

Lemma C1_pipes_witness :
  exists rows : list (list str),
    format_markdown_table (join BSN [lit "| A | B |"; lit "| 1 | 2 |"])
    = join BSN (map (join (lit " | ")) rows)
    /\ Forall (Forall no_pipe) rows.
Proof.
  apply (C1_pipes_only_between_parts
           (join BSN [lit "| A | B |"; lit "| 1 | 2 |"])).
  vm_compute. reflexivity.
Defined.

(** ** When the formatter returns the empty string *)

Lemma join_cons_nonempty (sep p : str) (rest : list str) :
  p <> [] -> join sep (p :: rest) <> [].
Proof.
  intros Hp. destruct p as [|c p]; [congruence|].
  destruct rest; simpl; discriminate.
Qed.









(** ** Placeholder tokens *)

Lemma lit_inj (a b : string) : lit a = lit b -> a = b.
Proof.
  unfold lit. intros H.
  apply (f_equal (map ascii_of_N)) in H.
  rewrite !map_map in H.
  rewrite !(map_ext _ (fun x => x) ascii_N_embedding), !map_id in H.
  apply (f_equal string_of_list_ascii) in H.
  now rewrite !string_of_list_ascii_of_string in H.
Qed.

Lemma str_of_nat_inj (n m : nat) : str_of_nat n = str_of_nat m -> n = m.
Proof.
  unfold str_of_nat. intros H. apply lit_inj in H.
  apply (f_equal NilEmpty.uint_of_string) in H.
  rewrite !NilEmpty.usu in H. injection H as H.
  now apply Unsigned.to_uint_inj.
Qed.

Lemma placeholder_token_inj (n m : nat) :
  placeholder_token n = placeholder_token m -> n = m.
Proof.
  unfold placeholder_token. intros H.
  apply app_inv_head, app_inv_tail in H. now apply str_of_nat_inj.
Qed.


Lemma dict_set_fresh (k v : str) (d : placeholders) :
  ~ In k (map fst d) -> dict_set k v d = d ++ [(k, v)].
Proof.
  induction d as [|[k' v'] d IH]; simpl; intros H; [reflexivity|].
  destruct (str_eqb k' k) eqn:E.
  - apply str_eqb_eq in E. tauto.
  - rewrite IH; tauto.
Qed.

Lemma ordinal_keys_fresh (d : placeholders) :
  keys_by_ordinal d -> ~ In (placeholder_token (List.length d)) (map fst d).
Proof.
  unfold keys_by_ordinal. intros -> H. apply in_map_iff in H.
  destruct H as (k & E & Hk). apply placeholder_token_inj in E.
  apply in_seq in Hk. lia.
Qed.

Lemma register_table_keys (table_lines : list str) (st : str * placeholders) :
  keys_by_ordinal (snd st) ->
  keys_by_ordinal (snd (register_table table_lines st)).
Proof.
  destruct st as [pc d]. unfold register_table.
  destruct (nonempty table_lines); [|auto].
  cbn [snd]. intros H.
  rewrite dict_set_fresh by now apply ordinal_keys_fresh.
  unfold keys_by_ordinal in *.
  rewrite map_app, length_app, H. cbn [List.length map fst].
  rewrite Nat.add_1_r, seq_S, map_app. reflexivity.
Qed.








(** ** The final cleanup *)

Lemma rstrip_cons (c : char) (s : str) :
  rstrip (c :: s)
  = match rstrip s with
    | [] => if isspace c then [] else [c]
    | r => c :: r
    end.
Proof. reflexivity. Qed.

Lemma rstrip_idem (s : str) : rstrip (rstrip s) = rstrip s.
Proof.
  induction s as [|c s IH]; [reflexivity|]. rewrite rstrip_cons.
  destruct (rstrip s) as [|e r] eqn:E.
  - destruct (isspace c) eqn:Sp; [reflexivity|]. simpl. now rewrite Sp.
  - rewrite rstrip_cons, IH. reflexivity.
Qed.

Lemma rstrip_head (c : char) (s : str) :
  isspace c = false -> exists r, rstrip (c :: s) = c :: r.
Proof.
  intros H. cbn [rstrip]. destruct (rstrip s) as [|e r].
  - rewrite H. now exists [].
  - now exists (e :: r).
Qed.

Lemma lstrip_head (s : str) :
  lstrip s = [] \/ exists c r, lstrip s = c :: r /\ isspace c = false.
Proof.
  induction s as [|c s IH]; simpl; [now left|].
  destruct (isspace c) eqn:E; [exact IH|]. right. now exists c, s.
Qed.

Lemma strip_idem (s : str) : strip (strip s) = strip s.
Proof.
  unfold strip. destruct (lstrip_head s) as [->|(c & r & -> & Hc)];
    [reflexivity|].
  destruct (rstrip_head c r Hc) as (r' & E). rewrite E.
  cbn [lstrip]. rewrite Hc, <- E. apply rstrip_idem.
Qed.

(** The part of C10 that holds on every input: the output as a whole has
    no white space at either end. *)
Lemma final_cleanup_trimmed (text : str) :
  strip (final_cleanup text) = final_cleanup text.
Proof. unfold final_cleanup. apply strip_idem. Qed.

(** C10 fails on the code.  The cleanup joins the trimmed lines with the
    two-character separator and then rewrites every backslash followed
    by three or more letters n into two line feeds.  On the two-line
    document [a], [nn b] the separator and the two letters that follow it
    form such a run: the output has an empty line, and a line that starts
    with a space.  The renderer is only asked to return this plain text
    as it is. *)
Theorem C10_blank_line_in_output (md_to_text : str -> str) :
  md_to_text (lit "a\nnn b") = lit "a\nnn b" ->
  let out :=
    extract_text_from_markdown md_to_text (text_of_lines ["a"; "nn b"]%string)
  in
  final_cleanup (lit "a\nnn b") = [chr "a"; LF; LF; SPACE; chr "b"]
  /\ out = [chr "a"; LF; LF; SPACE; chr "b"]
  /\ splitlines out = [lit "a"; []; lit " b"]
  /\ strip (lit " b") <> lit " b".
Proof.
  intros Hmd out.
  assert (E : out = [chr "a"; LF; LF; SPACE; chr "b"]).
  { unfold out, extract_text_from_markdown.
    replace (extract_tables (clean_markup (text_of_lines ["a"; "nn b"]%string)))
      with (lit "a\nnn b", @nil (str * str)) by (vm_compute; reflexivity).
    rewrite Hmd. vm_compute. reflexivity. }
  rewrite E. vm_compute. repeat split; discriminate.
Qed.

Lemma C10_blank_line_witness :
  splitlines
    (extract_text_from_markdown md_plain (text_of_lines ["a"; "nn b"]%string))
  = [lit "a"; []; lit " b"].
Proof.
  apply (C10_blank_line_in_output md_plain). reflexivity.
Defined.

(** ** Lines joined by the separator *)

Lemma BSN_chars : BSN = [92%N; 110%N].
Proof. reflexivity. Qed.

Lemma startswith_BSN (s : str) :
  startswith BSN s
  = match s with
    | c :: d :: _ => (92 =? c)%N && (110 =? d)%N
    | _ => false
    end.
Proof.
  rewrite BSN_chars. destruct s as [|c [|d s]]; simpl; try reflexivity.
  - now rewrite andb_false_r.
  - now rewrite andb_true_r.
Qed.

(** A line that does not hold the separator does not start one together
    with the separator that follows it. *)
Lemma startswith_BSN_line (l r : str) :
  l <> [] -> contains BSN l = false ->
  startswith BSN (l ++ BSN ++ r) = false.
Proof.
  intros Hl Hc. destruct l as [|c l]; [congruence|].
  cbn [contains] in Hc. apply orb_false_iff in Hc. destruct Hc as [Hs _].
  rewrite startswith_BSN in *. rewrite BSN_chars.
  destruct l as [|d l]; cbn [app].
  - now rewrite andb_false_r.
  - exact Hs.
Qed.

Lemma split_go_BSN_here (r : str) :
  split_go BSN (BSN ++ r) 0 = [] :: split_go BSN r 0.
Proof. reflexivity. Qed.

Lemma split_go_line (l r : str) :
  contains BSN l = false ->
  split_go BSN (l ++ BSN ++ r) 0 = l :: split_go BSN r 0.
Proof.
  induction l as [|c l IH]; intros Hc; [apply split_go_BSN_here|].
  assert (Hs := startswith_BSN_line (c :: l) r ltac:(discriminate) Hc).
  cbn [contains] in Hc. apply orb_false_iff in Hc. destruct Hc as [_ Hc].
  change ((c :: l) ++ BSN ++ r) with (c :: (l ++ BSN ++ r)) in *.
  cbn [split_go]. rewrite Hs, (IH Hc). reflexivity.
Qed.

Lemma split_go_last (l : str) :
  contains BSN l = false -> split_go BSN l 0 = [l].
Proof.
  induction l as [|c l IH]; intros Hc; [reflexivity|].
  cbn [contains] in Hc. apply orb_false_iff in Hc. destruct Hc as [Hs Hc].
  cbn [split_go]. rewrite Hs, (IH Hc). reflexivity.
Qed.

Lemma join_cons (sep p : str) (q : str) (rest : list str) :
  join sep (p :: q :: rest) = p ++ sep ++ join sep (q :: rest).
Proof. reflexivity. Qed.

(** Splitting what was joined gives the lines back. *)
Lemma split_join (lines : list str) :
  lines <> [] -> Forall no_BSN lines -> split BSN (join BSN lines) = lines.
Proof.
  unfold split. intros Hne HF. induction HF as [|l rest Hl Hrest IH];
    [congruence|].
  destruct rest as [|q rest].
  - apply split_go_last, Hl.
  - rewrite join_cons, split_go_line by exact Hl.
    rewrite IH by discriminate. reflexivity.
Qed.

Lemma join_trail (l : str) (after : list str) :
  join BSN (l :: after) = l ++ trail after.
Proof. destruct after; [now rewrite app_nil_r|reflexivity]. Qed.

Lemma join_app_trail (group after : list str) :
  group <> [] -> join BSN (group ++ after) = join BSN group ++ trail after.
Proof.
  induction group as [|l group IH]; intros H; [congruence|].
  destruct group as [|q group].
  - apply join_trail.
  - cbn [app] in *. rewrite !join_cons, IH by discriminate.
    now rewrite !app_assoc.
Qed.

Lemma join_lead (before group : list str) :
  group <> [] -> join BSN (before ++ group) = lead before ++ join BSN group.
Proof.
  intros H. destruct before as [|l before]; [reflexivity|].
  rewrite join_app_trail by discriminate.
  destruct group as [|q group]; [congruence|].
  unfold lead, trail. now rewrite app_assoc.
Qed.

Lemma join_around (before group after : list str) :
  group <> [] ->
  join BSN (before ++ group ++ after)
  = lead before ++ join BSN group ++ trail after.
Proof.
  intros H. rewrite join_lead, join_app_trail; auto.
  destruct group; [congruence|discriminate].
Qed.

(** ** The loop over the lines *)

Lemma no_pipe_not_table_line (l : str) : no_pipe l -> is_table_line l = false.
Proof.
  unfold no_pipe, is_table_line. intros H.
  destruct (strip l) as [|c r] eqn:E; [reflexivity|].
  cbn [startswith]. destruct (PIPE =? c)%N eqn:P; [|reflexivity].
  apply N.eqb_eq in P. subst c. exfalso. apply H, strip_incl.
  rewrite E. now left.
Qed.

Lemma scan_tables_plain (before rest : list str) (st : str * placeholders) :
  Forall no_pipe before ->
  scan_tables (before ++ rest) [] st = scan_tables rest [] st.
Proof.
  intros HF. induction HF as [|l before Hl _ IH]; [reflexivity|].
  cbn [app scan_tables]. rewrite (no_pipe_not_table_line l Hl).
  destruct st as [pc d]. exact IH.
Qed.

Lemma scan_tables_run (group rest table_lines : list str)
    (st : str * placeholders) :
  Forall (fun l => is_table_line l = true) group ->
  scan_tables (group ++ rest) table_lines st
  = scan_tables rest (table_lines ++ group) st.
Proof.
  intros HF. revert table_lines.
  induction HF as [|l group Hl _ IH]; intros table_lines.
  - now rewrite app_nil_r.
  - cbn [app scan_tables]. rewrite Hl, IH, <- app_assoc. reflexivity.
Qed.

(** A run of pipe lines followed by lines without a pipe, or by the end
    of the text, is registered once. *)
Lemma scan_tables_block (group after rest : list str)
    (st : str * placeholders) :
  Forall (fun l => is_table_line l = true) group ->
  Forall no_pipe after ->
  (after <> [] \/ rest = []) ->
  scan_tables (group ++ after ++ rest) [] st
  = scan_tables rest [] (register_table group st).
Proof.
  intros Hg Ha Hend. rewrite scan_tables_run by exact Hg. cbn [app].
  destruct Ha as [|l after Hl Ha].
  - destruct Hend as [H | ->]; [congruence|]. cbn [app scan_tables].
    now destruct (register_table group st).
  - cbn [app scan_tables]. rewrite (no_pipe_not_table_line l Hl).
    apply scan_tables_plain. exact Ha.
Qed.

Lemma scan_tables_last_block (group after : list str)
    (st : str * placeholders) :
  Forall (fun l => is_table_line l = true) group ->
  Forall no_pipe after ->
  scan_tables (group ++ after) [] st = register_table group st.
Proof.
  intros Hg Ha. rewrite <- (app_nil_r after).
  rewrite scan_tables_block by auto.
  cbn [scan_tables]. now destruct (register_table group st).
Qed.

(** ** Replacing the first occurrence *)

Lemma replace_first_eq (old new s : str) :
  replace_first old new s
  = if startswith old s then new ++ skipn (List.length old) s
    else match s with
         | [] => []
         | c :: s' => c :: replace_first old new s'
         end.
Proof. destruct s; reflexivity. Qed.

Lemma startswith_app (p r : str) : startswith p (p ++ r) = true.
Proof.
  induction p as [|c p IH]; [reflexivity|]. cbn [app startswith].
  now rewrite N.eqb_refl, IH.
Qed.

(** When no earlier position starts an occurrence, the occurrence that is
    replaced is the one in view. *)
Lemma replace_first_here (old new before after : str) :
  (forall b0 b1, before = b0 ++ b1 -> b1 <> [] ->
                 startswith old (b1 ++ old ++ after) = false) ->
  replace_first old new (before ++ old ++ after) = before ++ new ++ after.
Proof.
  induction before as [|c before IH]; intros H.
  - cbn [app]. rewrite replace_first_eq, startswith_app, skipn_app.
    rewrite skipn_all, Nat.sub_diag. reflexivity.
  - rewrite replace_first_eq.
    rewrite (H [] (c :: before)); [|reflexivity|discriminate].
    cbn [app]. f_equal. apply IH. intros b0 b1 -> Hb.
    apply (H (c :: b0) b1); [reflexivity|exact Hb].
Qed.

(** A text that begins with white space and then a pipe does not start
    inside a stretch without pipes that ends in a character other than
    white space. *)
Lemma startswith_blocked (w r b rest : str) (c : char) :
  forallb isspace w = true -> no_pipe (b ++ [c]) -> isspace c = false ->
  startswith (w ++ PIPE :: r) ((b ++ [c]) ++ rest) = false.
Proof.
  revert b. induction w as [|x w IH]; intros b Hw Hb Hc.
  - destruct b as [|y b]; cbn [app startswith].
    + destruct (PIPE =? c)%N eqn:E; [|reflexivity].
      apply N.eqb_eq in E. exfalso. apply Hb. subst. now left.
    + destruct (PIPE =? y)%N eqn:E; [|reflexivity].
      apply N.eqb_eq in E. exfalso. apply Hb. subst. now left.
  - cbn [forallb] in Hw. apply andb_true_iff in Hw. destruct Hw as [Hx Hw].
    destruct b as [|y b]; cbn [app startswith].
    + destruct (x =? c)%N eqn:E; [|reflexivity].
      apply N.eqb_eq in E. congruence.
    + rewrite (IH b Hw); [apply andb_false_r| |exact Hc].
      intros H. apply Hb. now right.
Qed.

Lemma rstrip_head_inv (s r : str) (c : char) :
  rstrip s = c :: r -> exists s', s = c :: s'.
Proof.
  destruct s as [|d s]; [discriminate|]. rewrite rstrip_cons.
  destruct (rstrip s).
  - destruct (isspace d); [discriminate|]. intros H.
    injection H as H _. subst. now exists s.
  - intros H. injection H as H _. subst. now exists s.
Qed.

Lemma lstrip_split (s : str) :
  exists w, s = w ++ lstrip s /\ forallb isspace w = true.
Proof.
  induction s as [|c s (w & E & Hw)]; [now exists []|]. cbn [lstrip].
  destruct (isspace c) eqn:Sp.
  - exists (c :: w). cbn [app forallb]. rewrite Sp, Hw. now rewrite <- E.
  - now exists [].
Qed.

(** A pipe line is white space, a pipe, and the rest. *)
Lemma table_line_shape (l : str) :
  is_table_line l = true ->
  exists w r, l = w ++ PIPE :: r /\ forallb isspace w = true.
Proof.
  unfold is_table_line, strip. intros H.
  destruct (rstrip (lstrip l)) as [|c r] eqn:E; [discriminate|].
  cbn [startswith] in H. apply andb_true_iff in H. destruct H as [H _].
  apply N.eqb_eq in H. subst c.
  destruct (rstrip_head_inv _ _ _ E) as (s' & Es).
  destruct (lstrip_split l) as (w & El & Hw).
  exists w, s'. now rewrite <- Es.
Qed.

(** ** Two table blocks with the same text *)

Lemma BSN_no_pipe : no_pipe BSN.
Proof. unfold no_pipe. vm_compute. intuition discriminate. Qed.

Lemma no_pipe_app (a b : str) : no_pipe a -> no_pipe b -> no_pipe (a ++ b).
Proof. unfold no_pipe. rewrite in_app_iff. tauto. Qed.

Lemma join_no_pipe (lines : list str) :
  Forall no_pipe lines -> no_pipe (join BSN lines).
Proof.
  intros HF. induction HF as [|l rest Hl _ IH]; [intros []|].
  rewrite join_trail. apply no_pipe_app; [exact Hl|].
  destruct rest; [intros []|].
  unfold trail. apply no_pipe_app; [apply BSN_no_pipe|exact IH].
Qed.

Lemma lead_no_pipe (before : list str) :
  Forall no_pipe before -> no_pipe (lead before).
Proof.
  intros HF. destruct before; [intros []|].
  unfold lead. apply no_pipe_app; [now apply join_no_pipe|apply BSN_no_pipe].
Qed.

Lemma lead_ends (before : list str) :
  lead before = [] \/ exists b, lead before = b ++ [110%N].
Proof.
  destruct before as [|l before]; [now left|]. right.
  exists (join BSN (l :: before) ++ [92%N]).
  unfold lead. now rewrite BSN_chars, <- app_assoc.
Qed.

(** In a text of joined lines, a block of pipe lines that comes after
    lines without pipes is the first occurrence of its own text. *)
Lemma replace_block (before group after : list str) (token : str) :
  Forall no_pipe before ->
  Forall (fun l => is_table_line l = true) group -> group <> [] ->
  replace_first (join BSN group) token (join BSN (before ++ group ++ after))
  = join BSN (before ++ [token] ++ after).
Proof.
  intros Hb Hg Hne.
  rewrite join_around by exact Hne.
  rewrite (join_around before [token] after) by discriminate.
  cbn [join]. apply replace_first_here. intros b0 b1 E Hb1.
  generalize (join BSN group ++ trail after). intros rest.
  destruct Hg as [|g group Hg _]; [congruence|].
  destruct (table_line_shape g Hg) as (w & r & -> & Hw).
  rewrite join_trail, <- app_assoc. cbn [app].
  destruct (lead_ends before) as [E0|(b & Eb)].
  - rewrite E0 in E. symmetry in E. apply app_eq_nil in E. tauto.
  - destruct (exists_last Hb1) as (b1' & c & ->).
    assert (Hp : no_pipe (b1' ++ [c])).
    { intros H. apply (lead_no_pipe before Hb). rewrite E.
      apply in_or_app. now right. }
    rewrite Eb, app_assoc in E. apply app_inj_tail in E.
    destruct E as [_ <-]. now apply startswith_blocked.
Qed.

Lemma placeholder_token_0_no_pipe : no_pipe (placeholder_token 0).
Proof. unfold no_pipe. vm_compute. intuition discriminate. Qed.

(** C2, as the code has it.  When the content that reaches the table
    step has two blocks of pipe lines with the same text, among lines
    that hold no pipe, each block is replaced by a placeholder of its
    own: every replacement takes the first occurrence of the block's text
    left in the running content, which for the second block is that
    block.  Two placeholders are created, both with the same formatted
    table, and no line of either block is left in the content. *)
Theorem C2_identical_blocks_both_replaced
    (before block between after : list str) :
  Forall plain_line before -> Forall plain_line between ->
  Forall plain_line after ->
  Forall pipe_line block -> block <> [] -> between <> [] ->
  extract_tables (join BSN (before ++ block ++ between ++ block ++ after))
  = (join BSN (before ++ [placeholder_token 0] ++ between
                 ++ [placeholder_token 1] ++ after),
     [(placeholder_token 0, format_markdown_table (join BSN block));
      (placeholder_token 1, format_markdown_table (join BSN block))]).
Proof.
  intros Hbefore Hbetween Hafter Hblock Hne Hmid.
  assert (P : forall L, Forall plain_line L -> Forall no_pipe L).
  { intros L. apply Forall_impl. now intros l [H _]. }
  assert (B : forall L, Forall plain_line L -> Forall no_BSN L).
  { intros L. apply Forall_impl. now intros l [_ H]. }
  assert (Hrun : Forall (fun l => is_table_line l = true) block).
  { revert Hblock. apply Forall_impl. now intros l [H _]. }
  assert (Hblock' : Forall no_BSN block).
  { revert Hblock. apply Forall_impl. now intros l [_ H]. }
  unfold extract_tables. rewrite split_join.
  2:{ destruct before; [destruct block; [congruence|]|]; discriminate. }
  2:{ repeat (apply Forall_app; split); auto. }
  rewrite scan_tables_plain by auto.
  rewrite (scan_tables_block block between (block ++ after)) by auto.
  rewrite scan_tables_last_block by auto.
  unfold register_table.
  replace (nonempty block) with true by (now destruct block).
  cbn [List.length dict_set].
  replace (str_eqb (placeholder_token 0) (placeholder_token 1)) with false
    by (vm_compute; reflexivity).
  f_equal.
  rewrite (replace_block before block (between ++ block ++ after))
    by auto.
  replace (before ++ [placeholder_token 0] ++ between ++ block ++ after)
    with ((before ++ [placeholder_token 0] ++ between) ++ block ++ after)
    by (now rewrite <- !app_assoc).
  rewrite replace_block; auto.
  - now rewrite <- !app_assoc.
  - repeat (apply Forall_app; split); auto.
    constructor; [apply placeholder_token_0_no_pipe|constructor].
Qed.

(** C2 as stated fails: in the document below, with the same table twice,
    both blocks are replaced, each by its own placeholder, and the
    output holds the formatted table twice and no line of the table. *)
Lemma C2_counterexample :
  let doc := text_of_lines ["intro"; "| A | B |"; "| 1 | 2 |"; "text";
                            "| A | B |"; "| 1 | 2 |"]%string in
  extract_tables (clean_markup doc)
  = (lit "intro\n__TABLE_PLACEHOLDER_0__\ntext\n__TABLE_PLACEHOLDER_1__",
     [(placeholder_token 0, lit "A: 1 | B: 2");
      (placeholder_token 1, lit "A: 1 | B: 2")])
  /\ extract_text_from_markdown md_plain doc
     = lit "intro\nA: 1 | B: 2\ntext\nA: 1 | B: 2"
  /\ contains (lit "| A | B |") (extract_text_from_markdown md_plain doc)
     = false
  /\ contains (lit "| 1 | 2 |") (extract_text_from_markdown md_plain doc)
     = false.
Proof. vm_compute. repeat split. Qed.

Lemma C2_identical_blocks_witness :
  extract_tables
    (join BSN ([lit "intro"] ++ [lit "| A | B |"; lit "| 1 | 2 |"]
               ++ [lit "text"] ++ [lit "| A | B |"; lit "| 1 | 2 |"]
               ++ [lit "end"]))
  = (lit "intro\n__TABLE_PLACEHOLDER_0__\ntext\n__TABLE_PLACEHOLDER_1__\nend",
     [(placeholder_token 0, lit "A: 1 | B: 2");
      (placeholder_token 1, lit "A: 1 | B: 2")]).
Proof.
  rewrite (C2_identical_blocks_both_replaced
             [lit "intro"] [lit "| A | B |"; lit "| 1 | 2 |"]
             [lit "text"] [lit "end"]).
  - vm_compute. reflexivity.
  - repeat constructor; vm_compute; intuition discriminate.
  - repeat constructor; vm_compute; intuition discriminate.
  - repeat constructor; vm_compute; intuition discriminate.
  - repeat constructor; vm_compute; intuition discriminate.
  - discriminate.
  - discriminate.
Defined.

(** ** Normalizing text that is already clean *)

Lemma startswith_incl (p s : str) (c : char) :
  startswith p s = true -> In c p -> In c s.
Proof.
  revert s. induction p as [|a p IH]; intros s H Hc; [destruct Hc|].
  destruct s as [|b s]; [discriminate|]. cbn [startswith] in H.
  apply andb_true_iff in H. destruct H as [E H]. apply N.eqb_eq in E.
  subst b. destruct Hc as [->|Hc]; [now left|]. right. now apply IH.
Qed.

Lemma startswith_missing (p s : str) (a : char) :
  In a p -> ~ In a s -> startswith p s = false.
Proof.
  intros Hp Hs. apply not_true_is_false. intros H.
  apply Hs. eapply startswith_incl; eauto.
Qed.

Lemma contains_missing (p s : str) (a : char) :
  In a p -> ~ In a s -> contains p s = false.
Proof.
  intros Hp. induction s as [|c s IH]; intros Hs; cbn [contains].
  - now rewrite (startswith_missing p [] a).
  - rewrite (startswith_missing p (c :: s) a) by assumption.
    apply IH. intros H. apply Hs. now right.
Qed.

Lemma remove_spans_missing (op cl s : str) (a : char) :
  In a op -> ~ In a s -> remove_spans op cl s = s.
Proof.
  intros Hp. unfold remove_spans.
  induction s as [|c s IH]; intros Hs; [reflexivity|].
  cbn [remove_spans_go].
  rewrite (startswith_missing op (c :: s) a) by assumption.
  rewrite IH; [reflexivity|]. intros H. apply Hs. now right.
Qed.

Lemma unwrap_inline_code_missing (s : str) :
  ~ In BACKTICK s -> unwrap_inline_code s = s.
Proof.
  unfold unwrap_inline_code.
  induction s as [|c s IH]; intros Hs; [reflexivity|].
  cbn [unwrap_inline_code_go].
  destruct (c =? BACKTICK)%N eqn:E.
  - apply N.eqb_eq in E. exfalso. apply Hs. now left.
  - cbn [andb]. rewrite IH; [reflexivity|]. intros H. apply Hs. now right.
Qed.



Lemma remove_urls_missing (s : str) :
  ~ In (chr "/") s -> remove_urls s = s.
Proof.
  unfold remove_urls.
  induction s as [|c s IH]; intros Hs; [reflexivity|].
  cbn [remove_urls_go]. unfold url_match.
  rewrite (startswith_missing (lit "https://") (c :: s) (chr "/"));
    [|vm_compute; tauto|exact Hs].
  rewrite (startswith_missing (lit "http://") (c :: s) (chr "/"));
    [|vm_compute; tauto|exact Hs].
  rewrite IH; [reflexivity|]. intros H. apply Hs. now right.
Qed.


Lemma splitlines_single (x : str) :
  x <> [] -> forallb (fun c => negb (is_linebreak c)) x = true ->
  splitlines x = [x].
Proof.
  induction x as [|c x IH]; intros Hne H; [congruence|].
  cbn [forallb] in H. apply andb_true_iff in H. destruct H as [Hc H].
  cbn [splitlines]. apply negb_true_iff in Hc. rewrite Hc.
  destruct x as [|d x]; [reflexivity|].
  rewrite IH by (discriminate || assumption). reflexivity.
Qed.


Section CleanText.

Variable md_to_text : str -> str.



End CleanText.




(** * Further properties of the code *)

(** ** The output of the normalizer and the filter *)

Section Output.

Variable md_to_text : str -> str.

(** X1.  Whatever the document and the renderer, the text the normalizer
    returns has no white space at either end (line 169). *)
Theorem extract_text_trimmed (markdown_content : str) :
  strip (extract_text_from_markdown md_to_text markdown_content)
  = extract_text_from_markdown md_to_text markdown_content.
Proof.
  unfold extract_text_from_markdown.
  destruct (extract_tables (clean_markup markdown_content)) as [pc d].
  apply final_cleanup_trimmed.
Qed.

(** X2.  On the text the normalizer returns, the test of line 244 is the mere
    comparison of its length with 50: neither the truth test nor the trim
    changes the outcome. *)
Theorem long_enough_is_length (markdown_content : str) :
  long_enough (extract_text_from_markdown md_to_text markdown_content)
  = (50 <? List.length
             (extract_text_from_markdown md_to_text markdown_content)).
Proof.
  unfold long_enough.
  replace (strip (extract_text_from_markdown md_to_text markdown_content))
    with (extract_text_from_markdown md_to_text markdown_content).
  - destruct (extract_text_from_markdown md_to_text markdown_content);
      reflexivity.
  - unfold extract_text_from_markdown.
    destruct (extract_tables (clean_markup markdown_content)) as [pc d].
    symmetry. apply final_cleanup_trimmed.
Qed.

Lemma fold_process_file (files : list (str * option str))
    (data : list CleanedRecord) :
  fold_left (process_file md_to_text) files data
  = data ++ fold_left (process_file md_to_text) files [].
Proof.
  revert data. induction files as [|file files IH]; intros data;
    cbn [fold_left]; [now rewrite app_nil_r|].
  rewrite (IH (process_file md_to_text data file)).
  rewrite (IH (process_file md_to_text [] file)).
  rewrite app_assoc. f_equal.
  unfold process_file. destruct file as [p [c|]];
    destruct (endswith (lit ".md") p); try (now rewrite app_nil_r).
  destruct (long_enough (extract_text_from_markdown md_to_text c));
    [reflexivity|now rewrite app_nil_r].
Qed.

(** X4.  The records of a walk are those of its first part followed by those
    of the rest: every file is handled on its own, and the records keep
    the order of the walk. *)
Theorem process_documentation_app (files1 files2 : list (str * option str)) :
  process_documentation md_to_text (files1 ++ files2)
  = process_documentation md_to_text files1
    ++ process_documentation md_to_text files2.
Proof.
  unfold process_documentation. rewrite fold_left_app.
  apply fold_process_file.
Qed.

End Output.

(** ** Splitting and joining *)

Lemma startswith_skipn (p s : str) :
  startswith p s = true -> s = p ++ skipn (List.length p) s.
Proof.
  revert s. induction p as [|a p IH]; intros s H; [reflexivity|].
  destruct s as [|b s]; [discriminate|]. cbn [startswith] in H.
  apply andb_true_iff in H. destruct H as [E H]. apply N.eqb_eq in E.
  subst b. cbn [List.length skipn app]. f_equal. now apply IH.
Qed.

Lemma split_go_nonempty (sep s : str) (skip : nat) :
  split_go sep s skip <> [].
Proof.
  revert skip. induction s as [|c s IH]; intros skip; cbn [split_go];
    [discriminate|].
  destruct skip; [|apply IH].
  destruct (startswith sep (c :: s)); [discriminate|].
  destruct (split_go sep s 0); discriminate.
Qed.

Lemma join_cons_head (sep : str) (c : char) (pieces : list str) :
  pieces <> [] -> join sep (cons_head c pieces) = c :: join sep pieces.
Proof.
  destruct pieces as [|p [|q ps]]; [congruence|reflexivity|reflexivity].
Qed.

Lemma join_nil_cons (sep : str) (pieces : list str) :
  pieces <> [] -> join sep ([] :: pieces) = sep ++ join sep pieces.
Proof. destruct pieces; [congruence|reflexivity]. Qed.

Lemma join_split_go (sep s : str) (skip : nat) :
  sep <> [] -> join sep (split_go sep s skip) = skipn skip s.
Proof.
  intros Hsep. revert skip. induction s as [|c s IH]; intros skip.
  - now destruct skip.
  - cbn [split_go]. destruct skip as [|k]; [|apply IH].
    destruct (startswith sep (c :: s)) eqn:E.
    + rewrite join_nil_cons by apply split_go_nonempty. rewrite IH.
      transitivity (sep ++ skipn (List.length sep) (c :: s));
        [|symmetry; apply startswith_skipn, E].
      destruct sep as [|a sep]; [congruence|]. reflexivity.
    + rewrite join_cons_head by apply split_go_nonempty.
      now rewrite IH.
Qed.

(** X6.  Joining with the separator the pieces of a split on it gives the
    text back, whatever the text. *)
Theorem join_split (sep s : str) :
  sep <> [] -> join sep (split sep s) = s.
Proof. intros H. unfold split. now rewrite join_split_go. Qed.

Lemma join_split_witness :
  join BSN (split BSN (lit "a\n\nb\")) = lit "a\n\nb\".
Proof. apply join_split. discriminate. Defined.

(** X7.  The other way round: the lines of a text joined with the separator
    are what splitting gives, when there is a line and no line holds the
    separator. *)
Theorem split_join_lines (lines : list str) :
  lines <> [] -> (forall l, In l lines -> contains BSN l = false) ->
  split BSN (join BSN lines) = lines.
Proof.
  intros Hne H. apply split_join; [exact Hne|].
  apply Forall_forall. exact H.
Qed.

Lemma split_join_lines_witness :
  split BSN (join BSN [lit "a\"; lit "nb"; []; lit "c"])
  = [lit "a\"; lit "nb"; []; lit "c"].
Proof.
  apply split_join_lines; [discriminate|].
  intros l [<-|[<-|[<-|[<-|[]]]]]; reflexivity.
Defined.

(** ** Passes that find nothing to do *)

Lemma filter_all {A} (f : A -> bool) (l : list A) :
  (forall a, In a l -> f a = true) -> filter f l = l.
Proof.
  induction l as [|a l IH]; intros H; [reflexivity|]. cbn [filter].
  rewrite (H a) by now left. f_equal. apply IH. intros b Hb. apply H.
  now right.
Qed.

Lemma remove_link_definitions_id (s : str) :
  (forall line, In line (split BSN s) -> is_link_definition line = false) ->
  remove_link_definitions s = s.
Proof.
  intros H. unfold remove_link_definitions. rewrite filter_all.
  - unfold split. rewrite join_split_go by discriminate. reflexivity.
  - intros line Hl. now rewrite (H line Hl).
Qed.

(** X8.  Step 11 leaves a text without link definitions as it is: a line is
    dropped only if, once trimmed, it starts with an opening bracket and
    it holds a closing bracket, a colon and a space. *)
Theorem remove_link_definitions_none (s : str) :
  (forall line, In line (split BSN s) -> is_link_definition line = false) ->
  remove_link_definitions s = s.
Proof. apply remove_link_definitions_id. Qed.

Lemma remove_link_definitions_none_witness :
  remove_link_definitions (lit "see [a]: b\nplain [x]")
  = lit "see [a]: b\nplain [x]".
Proof.
  apply remove_link_definitions_none.
  intros line [<-|[<-|[]]]; reflexivity.
Defined.

Lemma scan_tables_none (lines : list str) (st : str * placeholders) :
  (forall line, In line lines -> is_table_line line = false) ->
  scan_tables lines [] st = st.
Proof.
  induction lines as [|l lines IH]; intros H; [now destruct st|].
  cbn [scan_tables]. rewrite (H l) by now left.
  replace (register_table [] st) with st by now destruct st.
  apply IH. intros line Hl. apply H. now right.
Qed.

(** X9.  A text none of whose lines starts, once trimmed, with a pipe goes
    through table extraction unchanged, and no placeholder is created;
    pipes inside such lines do not matter. *)
Theorem extract_tables_no_table (s : str) :
  (forall line, In line (split BSN s) -> is_table_line line = false) ->
  extract_tables s = (s, []).
Proof. intros H. unfold extract_tables. now apply scan_tables_none. Qed.

Lemma extract_tables_no_table_witness :
  extract_tables (lit "a | b\nc || d") = (lit "a | b\nc || d", []).
Proof.
  apply extract_tables_no_table.
  intros line [<-|[<-|[]]]; reflexivity.
Defined.

(** ** One placeholder for every block *)

Lemma table_blocks_cons (l : str) (rest : list str) :
  table_blocks (l :: rest)
  = if is_table_line l then
      match rest with
      | r :: _ => if is_table_line r
                  then cons_block l (table_blocks rest)
                  else [l] :: table_blocks rest
      | [] => [[l]]
      end
    else table_blocks rest.
Proof. reflexivity. Qed.

Lemma table_blocks_run (run : list str) :
  Forall (fun l => is_table_line l = true) run ->
  table_blocks run = match run with [] => [] | _ :: _ => [run] end.
Proof.
  intros HF. induction HF as [|l run Hl HF IH]; [reflexivity|].
  rewrite table_blocks_cons, Hl. destruct HF as [|r run Hr HF];
    [reflexivity|].
  rewrite Hr, IH. reflexivity.
Qed.

Lemma table_blocks_after_run (run rest : list str) (l : str) :
  Forall (fun l => is_table_line l = true) run ->
  is_table_line l = false ->
  table_blocks (run ++ l :: rest)
  = match run with [] => [] | _ :: _ => [run] end ++ table_blocks rest.
Proof.
  intros HF Hl. induction HF as [|a run Ha HF IH].
  - cbn [app]. now rewrite table_blocks_cons, Hl.
  - cbn [app]. rewrite table_blocks_cons, Ha.
    destruct HF as [|r run Hr HF].
    + cbn [app]. now rewrite Hl, table_blocks_cons, Hl.
    + change ((r :: run) ++ l :: rest) with (r :: (run ++ l :: rest)) in *.
      cbv iota. rewrite Hr, IH. reflexivity.
Qed.

Lemma table_blocks_nonempty (lines : list str) (b : list str) :
  In b (table_blocks lines) -> b <> [].
Proof.
  revert b. induction lines as [|l rest IH]; intros b;
    [intros []|]. rewrite table_blocks_cons.
  destruct (is_table_line l); [|apply IH].
  destruct rest as [|r rest']; [intros [<-|[]]; discriminate|].
  destruct (is_table_line r).
  - destruct (table_blocks (r :: rest')) as [|b0 bs] eqn:E; cbn [cons_block].
    + intros [<-|[]]. discriminate.
    + intros [<-|H]; [discriminate|]. apply IH. now right.
  - intros [<-|H]; [discriminate|]. now apply IH.
Qed.

(** The loop registers the maximal runs of pipe lines, in order. *)
Lemma scan_tables_blocks (lines run : list str) (st : str * placeholders) :
  Forall (fun l => is_table_line l = true) run ->
  scan_tables lines run st
  = fold_left (fun st b => register_table b st)
              (table_blocks (run ++ lines)) st.
Proof.
  revert run st. induction lines as [|l rest IH]; intros run st HF.
  - rewrite app_nil_r, table_blocks_run by exact HF. cbn [scan_tables].
    destruct run; [now destruct st|reflexivity].
  - cbn [scan_tables]. destruct (is_table_line l) eqn:El.
    + rewrite IH by (apply Forall_app; split; [exact HF|now constructor]).
      now rewrite <- app_assoc.
    + rewrite table_blocks_after_run by assumption.
      rewrite fold_left_app, (IH [] _ (Forall_nil _)).
      destruct run; [now destruct st|reflexivity].
Qed.

Lemma register_blocks_entries (blocks : list (list str)) (pc : str)
    (d : placeholders) :
  keys_by_ordinal d -> (forall b, In b blocks -> b <> []) ->
  snd (fold_left (fun st b => register_table b st) blocks (pc, d))
  = d ++ entries_from (List.length d) blocks.
Proof.
  revert pc d. induction blocks as [|b bs IH]; intros pc d K H.
  - cbn. now rewrite app_nil_r.
  - cbn [fold_left entries_from].
    assert (Hb : b <> []) by (apply H; now left).
    assert (R : register_table b (pc, d)
                = (replace_first (join BSN b)
                     (placeholder_token (List.length d)) pc,
                   d ++ [(placeholder_token (List.length d),
                          format_markdown_table (join BSN b))])).
    { unfold register_table. destruct b; [congruence|]. cbn [nonempty].
      now rewrite dict_set_fresh by now apply ordinal_keys_fresh. }
    rewrite R, IH.
    + rewrite length_app, <- app_assoc. cbn [List.length app].
      now rewrite Nat.add_1_r.
    + assert (K' := register_table_keys b (pc, d) K). now rewrite R in K'.
    + intros b' Hb'. apply H. now right.
Qed.

(** X10.  Table extraction creates one placeholder for every maximal run of
    consecutive pipe lines, in their order in the text: the k-th run
    (from 0) gets the token of ordinal k, with the formatted text of its
    lines joined by the separator. *)
Theorem extract_tables_entries (cleaned_markdown_content : str) :
  snd (extract_tables cleaned_markdown_content)
  = entries_from 0 (table_blocks (split BSN cleaned_markdown_content)).
Proof.
  unfold extract_tables.
  rewrite scan_tables_blocks by constructor. cbn [app].
  rewrite register_blocks_entries; [reflexivity|reflexivity|].
  apply table_blocks_nonempty.
Qed.

(** ** The formatter on a table written cell by cell *)

Lemma join_padded (cells : list str) :
  cells <> [] ->
  SPACE :: (join (lit " | ") cells ++ lit " |") = flat_map pad_cell cells.
Proof.
  induction cells as [|c cells IH]; intros Hne; [congruence|].
  destruct cells as [|d cells].
  - cbn [join flat_map]. unfold pad_cell. now rewrite app_nil_r.
  - rewrite join_cons.
    change (flat_map pad_cell (c :: d :: cells))
      with (pad_cell c ++ flat_map pad_cell (d :: cells)).
    rewrite <- IH by discriminate.
    unfold pad_cell. change (lit " | ") with [SPACE; PIPE; SPACE].
    cbn [app]. f_equal. rewrite <- !app_assoc. reflexivity.
Qed.

Lemma row_line_flat (cells : list str) :
  cells <> [] -> row_line cells = PIPE :: flat_map pad_cell cells.
Proof.
  intros Hne. unfold row_line. change (lit "| ") with [PIPE; SPACE].
  cbn [app]. f_equal. now apply join_padded.
Qed.

Lemma split_char_cons (a c : char) (s : str) :
  split [a] (c :: s)
  = if (a =? c)%N then [] :: split [a] s else cons_head c (split [a] s).
Proof.
  unfold split. cbn [split_go startswith List.length pred].
  now rewrite andb_true_r.
Qed.

Lemma split_char_prefix (a : char) (p rest : str) :
  ~ In a p -> split [a] (p ++ a :: rest) = p :: split [a] rest.
Proof.
  induction p as [|c p IH]; intros H.
  - cbn [app]. now rewrite split_char_cons, N.eqb_refl.
  - cbn [app]. rewrite split_char_cons.
    destruct (a =? c)%N eqn:E.
    + apply N.eqb_eq in E. exfalso. apply H. now left.
    + rewrite IH; [reflexivity|]. intros Hp. apply H. now right.
Qed.

Lemma split_padded (cells : list str) :
  Forall no_pipe cells ->
  split [PIPE] (flat_map pad_cell cells)
  = map (fun cell => SPACE :: cell ++ [SPACE]) cells ++ [[]].
Proof.
  intros HF. induction HF as [|c cells Hc _ IH]; [reflexivity|].
  cbn [flat_map map app]. unfold pad_cell at 1.
  replace ((SPACE :: c ++ [SPACE; PIPE]) ++ flat_map pad_cell cells)
    with ((SPACE :: c ++ [SPACE]) ++ PIPE :: flat_map pad_cell cells)
    by (cbn [app]; f_equal; rewrite <- !app_assoc; reflexivity).
  rewrite split_char_prefix, IH; [reflexivity|].
  cbn [app]. intros [H|H]; [discriminate|].
  apply in_app_or in H. destruct H as [H|[H|[]]]; [now apply Hc|discriminate].
Qed.

Lemma split_row_line (cells : list str) :
  cells <> [] -> Forall no_pipe cells ->
  slice_1_m1 (split [PIPE] (row_line cells))
  = map (fun cell => SPACE :: cell ++ [SPACE]) cells.
Proof.
  intros Hne HF. rewrite row_line_flat by exact Hne.
  rewrite split_char_cons, N.eqb_refl, split_padded by exact HF.
  unfold slice_1_m1. cbn [tl]. apply removelast_last.
Qed.

Lemma rstrip_app_space (x : str) (s : char) :
  isspace s = true -> rstrip (x ++ [s]) = rstrip x.
Proof.
  intros Hs. induction x as [|c x IH].
  - cbn. now rewrite Hs.
  - cbn [app]. now rewrite !rstrip_cons, IH.
Qed.

Lemma rstrip_app_nonspace (x : str) (d : char) :
  isspace d = false -> rstrip (x ++ [d]) = x ++ [d].
Proof.
  intros Hd. induction x as [|c x IH].
  - cbn. now rewrite Hd.
  - cbn [app]. rewrite rstrip_cons, IH. now destruct x.
Qed.

Lemma strip_fixed (x : str) :
  strip x = x -> lstrip x = x /\ rstrip x = x.
Proof.
  unfold strip. intros H.
  assert (L : lstrip x = x).
  { destruct (lstrip_head x) as [E|(c & r & E & Hc)].
    - rewrite E in H. cbn in H. now subst.
    - rewrite E in H. destruct (rstrip_head c r Hc) as (r' & E').
      rewrite E' in H. subst x. cbn [lstrip]. now rewrite Hc. }
  split; [exact L|]. now rewrite L in H.
Qed.

Lemma strip_padded (x : str) :
  x <> [] -> strip x = x -> strip (SPACE :: x ++ [SPACE]) = x.
Proof.
  intros Hne H. destruct (strip_fixed x H) as [L R].
  unfold strip. cbn [lstrip]. change (isspace SPACE) with true. cbv iota.
  assert (E : lstrip (x ++ [SPACE]) = x ++ [SPACE]).
  { destruct x as [|c x]; [congruence|]. cbn [lstrip app] in *.
    destruct (isspace c) eqn:Sp; [|reflexivity].
    exfalso. apply (f_equal (@List.length char)) in L.
    cbn [List.length] in L.
    assert (Hlen : forall s, List.length (lstrip s) <= List.length s).
    { intros s. induction s as [|e s IHs]; cbn [lstrip List.length]; [lia|].
      destruct (isspace e); cbn [List.length]; lia. }
    specialize (Hlen x). lia. }
  rewrite E, rstrip_app_space by reflexivity. exact R.
Qed.

Lemma strip_ends (c d : char) (m : str) :
  isspace c = false -> isspace d = false ->
  strip (c :: m ++ [d]) = c :: m ++ [d].
Proof.
  intros Hc Hd. unfold strip. cbn [lstrip]. rewrite Hc.
  apply (rstrip_app_nonspace (c :: m) d Hd).
Qed.

Lemma clean_cells_no_pipe (cells : list str) :
  Forall clean_cell cells -> Forall no_pipe cells.
Proof. apply Forall_impl. now intros x (_ & _ & H & _). Qed.

Lemma cells_of_row_line (cells : list str) :
  cells <> [] -> Forall clean_cell cells ->
  cells_of (row_line cells) = cells.
Proof.
  intros Hne HF. unfold cells_of.
  rewrite split_row_line by auto using clean_cells_no_pipe.
  rewrite map_map. clear Hne.
  induction HF as [|x cells (Hx & Hs & _) _ IH]; [reflexivity|].
  cbn [map]. now rewrite strip_padded, IH.
Qed.

Lemma headers_of_row_line (cells : list str) :
  cells <> [] -> Forall clean_cell cells ->
  headers_of (row_line cells) = cells.
Proof.
  intros Hne HF. unfold headers_of.
  rewrite split_row_line by auto using clean_cells_no_pipe.
  rewrite filter_all.
  - rewrite map_map. clear Hne.
    induction HF as [|x cells (Hx & Hs & _) _ IH]; [reflexivity|].
    cbn [map]. now rewrite strip_padded, IH.
  - intros a Ha. apply in_map_iff in Ha. destruct Ha as (x & <- & Hx).
    destruct (proj1 (Forall_forall _ _) HF x Hx) as (Hn & Hs & _).
    rewrite strip_padded by assumption. now destruct x.
Qed.

Lemma labelled_nil (cells : list str) : labelled [] cells = cells.
Proof. induction cells as [|c cells IH]; [reflexivity|]. cbn. now rewrite IH. Qed.

Lemma row_text_from_past (headers cells : list str) (i : nat) :
  List.length headers <= i -> Forall (fun c => c <> []) cells ->
  row_text_from headers i cells = cells.
Proof.
  intros Hi HF. revert i Hi.
  induction HF as [|c cells Hc _ IH]; intros i Hi; [reflexivity|].
  cbn [row_text_from]. replace (truthy c) with true by now destruct c.
  rewrite (proj2 (nth_error_None headers i) Hi).
  rewrite IH by lia. reflexivity.
Qed.

Lemma row_text_from_labelled (before headers cells : list str) :
  Forall (fun h => h <> []) headers -> Forall (fun c => c <> []) cells ->
  row_text_from (before ++ headers) (List.length before) cells
  = labelled headers cells.
Proof.
  intros Hh Hc. revert before headers Hh.
  induction Hc as [|c cells Hc HF IH]; intros before headers Hh;
    [reflexivity|].
  cbn [row_text_from labelled].
  replace (truthy c) with true by now destruct c.
  rewrite nth_error_app2, Nat.sub_diag by lia.
  destruct Hh as [|h headers Hh Hhs].
  - cbn [nth_error]. rewrite app_nil_r.
    rewrite row_text_from_past by (auto; lia).
    now rewrite labelled_nil.
  - cbn [nth_error]. replace (truthy h) with true by now destruct h.
    replace (before ++ h :: headers) with ((before ++ [h]) ++ headers)
      by now rewrite <- app_assoc.
    replace (S (List.length before)) with (List.length (before ++ [h]))
      by (rewrite length_app; cbn; lia).
    now rewrite IH.
Qed.

Lemma row_line_ends (cells : list str) :
  exists m, row_line cells = PIPE :: m ++ [PIPE].
Proof.
  unfold row_line. exists (SPACE :: join (lit " | ") cells ++ [SPACE]).
  change (lit "| ") with [PIPE; SPACE]. change (lit " |") with [SPACE; PIPE].
  cbn [app]. do 2 f_equal. now rewrite <- app_assoc.
Qed.

Lemma join_trail_gen (sep p : str) (rest : list str) :
  join sep (p :: rest) = p ++ trail_gen sep rest.
Proof. destruct rest; [now rewrite app_nil_r|reflexivity]. Qed.

Lemma join_incl (sep : str) (parts : list str) (c : char) :
  In c (join sep parts) ->
  In c sep \/ exists p, In p parts /\ In c p.
Proof.
  induction parts as [|x parts IH]; [intros []|].
  rewrite join_trail_gen. rewrite in_app_iff. intros [H|H].
  - right. exists x. split; [now left|exact H].
  - destruct parts as [|y parts]; [destruct H|].
    cbn [trail_gen] in H. rewrite in_app_iff in H.
    destruct H as [H|H]; [now left|].
    destruct (IH H) as [Hs|(q & Hq & Hc)]; [now left|].
    right. exists q. split; [now right|exact Hc].
Qed.

Lemma join_In (sep : str) (parts : list str) (p : str) (c : char) :
  In p parts -> In c p -> In c (join sep parts).
Proof.
  induction parts as [|x parts IH]; [intros []|].
  rewrite join_trail_gen, in_app_iff. intros [<-|H] Hc; [now left|].
  right. destruct parts as [|y parts]; [destruct H|].
  cbn [trail_gen]. rewrite in_app_iff. right. now apply IH.
Qed.

Lemma row_line_incl (cells : list str) (c : char) :
  In c (row_line cells) ->
  c = PIPE \/ c = SPACE \/ exists cell, In cell cells /\ In c cell.
Proof.
  unfold row_line. change (lit "| ") with [PIPE; SPACE].
  change (lit " |") with [SPACE; PIPE]. rewrite !in_app_iff.
  intros [H|[H|H]].
  - destruct H as [H|[H|[]]]; auto.
  - apply join_incl in H. change (lit " | ") with [SPACE; PIPE; SPACE] in H.
    destruct H as [[H|[H|[H|[]]]]|H]; auto.
  - destruct H as [H|[H|[]]]; auto.
Qed.

Lemma row_line_In (cells : list str) (cell : str) (c : char) :
  In cell cells -> In c cell -> In c (row_line cells).
Proof.
  intros Hcell Hc. unfold row_line. rewrite !in_app_iff. right. left.
  eapply join_In; eauto.
Qed.

Lemma row_line_strip (cells : list str) : strip (row_line cells) = row_line cells.
Proof.
  destruct (row_line_ends cells) as (m & ->). now apply strip_ends.
Qed.

Lemma row_line_no_BSN (cells : list str) :
  Forall clean_cell cells -> contains BSN (row_line cells) = false.
Proof.
  intros HF. apply (contains_missing BSN _ (chr "\")); [now left|].
  intros H. apply row_line_incl in H.
  destruct H as [H|[H|(cell & Hcell & Hc)]]; try discriminate.
  destruct (proj1 (Forall_forall _ _) HF cell Hcell) as (_ & _ & _ & Hb).
  now apply Hb.
Qed.

Lemma row_line_not_separator (cells : list str) :
  data_row cells -> is_separator (row_line cells) = false.
Proof.
  intros (_ & _ & cell & c & Hcell & Hc & Hsep).
  unfold is_separator. apply not_true_is_false. intros H.
  rewrite forallb_forall in H.
  specialize (H c (row_line_In cells cell c Hcell Hc)). congruence.
Qed.

Lemma clean_cells_nonempty (cells : list str) :
  Forall clean_cell cells -> Forall (fun c => c <> []) cells.
Proof. apply Forall_impl. now intros x (H & _). Qed.

Lemma format_row_row_line (headers cells : list str) :
  Forall clean_cell headers -> data_row cells ->
  format_row headers (row_line cells)
  = [join (lit " | ") (labelled headers cells)].
Proof.
  intros Hh (Hne & HF & _). unfold format_row.
  destruct (row_line_ends cells) as (m & E).
  assert (S1 : startswith [PIPE] (row_line cells) = true)
    by (rewrite E; reflexivity).
  assert (S2 : endswith [PIPE] (row_line cells) = true).
  { unfold endswith. rewrite E.
    change (PIPE :: m ++ [PIPE]) with ((PIPE :: m) ++ [PIPE]).
    rewrite rev_app_distr. reflexivity. }
  rewrite S1, S2, cells_of_row_line by assumption. cbn [andb].
  assert (T : nonempty cells && existsb truthy cells = true).
  { destruct cells as [|c cells]; [congruence|].
    apply Forall_inv in HF. destruct HF as (Hc & _).
    cbn [nonempty existsb andb]. now destruct c. }
  rewrite T.
  assert (L : row_text_from headers 0 cells = labelled headers cells)
    by (apply (row_text_from_labelled [] headers cells);
        auto using clean_cells_nonempty).
  cbv zeta. rewrite L.
  destruct cells as [|c cells]; [congruence|].
  now destruct headers.
Qed.

Lemma map_row_line_no_BSN (rows : list (list str)) :
  Forall (Forall clean_cell) rows -> Forall no_BSN (map row_line rows).
Proof.
  intros HF. apply Forall_forall. intros l Hl. apply in_map_iff in Hl.
  destruct Hl as (cs & <- & Hcs). apply row_line_no_BSN.
  exact (proj1 (Forall_forall _ _) HF cs Hcs).
Qed.

Lemma joined_rows_strip (rows : list (list str)) :
  rows <> [] ->
  strip (join BSN (map row_line rows)) = join BSN (map row_line rows).
Proof.
  intros Hne. destruct (exists_last Hne) as (init & final & ->).
  rewrite map_app. cbn [map].
  rewrite join_lead by discriminate. cbn [join].
  destruct (row_line_ends final) as (m & E). rewrite E.
  destruct init as [|first init].
  - cbn [map lead app]. now apply strip_ends.
  - destruct (row_line_ends first) as (m1 & E1).
    cbn [map lead]. rewrite join_trail, E1.
    replace (((PIPE :: m1 ++ [PIPE]) ++ trail (map row_line init)) ++ BSN)
      with (PIPE :: ((m1 ++ [PIPE]) ++ trail (map row_line init)) ++ BSN)
      by reflexivity.
    replace ((PIPE :: ((m1 ++ [PIPE]) ++ trail (map row_line init)) ++ BSN)
             ++ PIPE :: m ++ [PIPE])
      with (PIPE :: ((((m1 ++ [PIPE]) ++ trail (map row_line init)) ++ BSN)
                       ++ PIPE :: m) ++ [PIPE]).
    + now apply strip_ends.
    + cbn [app]. f_equal. rewrite <- !app_assoc. reflexivity.
Qed.

Lemma table_rows_written (rows : list (list str)) :
  rows <> [] -> Forall (Forall clean_cell) rows ->
  table_rows (join BSN (map row_line rows)) = map row_line rows.
Proof.
  intros Hne HF. unfold table_rows.
  rewrite joined_rows_strip by exact Hne.
  rewrite split_join;
    [|destruct rows; [congruence|discriminate]|now apply map_row_line_no_BSN].
  rewrite filter_all.
  - rewrite map_map. apply map_ext. intros cs. apply row_line_strip.
  - intros l Hl. apply in_map_iff in Hl. destruct Hl as (cs & <- & _).
    rewrite row_line_strip. destruct (row_line_ends cs) as (m & ->).
    reflexivity.
Qed.

(** X11.  For a table written cell by cell, with clean cells, a header line and
    at least one data row, the formatter returns one line for every data
    row, with the line separator between them: the cells of the row, each
    after its label and a colon while the labels last, joined by
    [" | "]. *)
Theorem format_written_table (headers : list str) (rows : list (list str)) :
  headers <> [] -> Forall clean_cell headers ->
  rows <> [] -> Forall data_row rows ->
  format_markdown_table (join BSN (map row_line (headers :: rows)))
  = join BSN (map (fun cells => join (lit " | ") (labelled headers cells))
                  rows).
Proof.
  intros Hh Hhc Hr Hrows.
  assert (Hclean : Forall (Forall clean_cell) (headers :: rows)).
  { constructor; [exact Hhc|]. revert Hrows. apply Forall_impl.
    now intros cs (_ & H & _). }
  unfold format_markdown_table.
  rewrite table_rows_written by (discriminate || exact Hclean).
  cbn [map].
  destruct (row_line_ends headers) as (m & E).
  replace (startswith [PIPE] (row_line headers)) with true
    by (rewrite E; reflexivity).
  cbn [negb]. rewrite headers_of_row_line by assumption.
  assert (D : data_lines_of (map row_line rows) = map row_line rows).
  { unfold data_lines_of. apply filter_all. intros l Hl.
    apply in_map_iff in Hl. destruct Hl as (cs & <- & Hcs).
    rewrite row_line_not_separator
      by exact (proj1 (Forall_forall _ _) Hrows cs Hcs).
    rewrite row_line_strip. destruct (row_line_ends cs) as (m' & ->).
    reflexivity. }
  rewrite D.
  assert (F : formatted_lines_of headers (map row_line rows)
              = map (fun cells => join (lit " | ") (labelled headers cells))
                    rows).
  { unfold formatted_lines_of. clear D Hr Hclean.
    induction Hrows as [|cs rows Hcs _ IH]; [reflexivity|].
    cbn [map flat_map]. rewrite format_row_row_line by assumption.
    now rewrite IH. }
  rewrite F. destruct rows; [congruence|reflexivity].
Qed.

Lemma format_written_table_witness :
  format_markdown_table
    (lit "| Name | Type |\n| url | string |\n| retries | number | optional |")
  = lit "Name: url | Type: string\nName: retries | Type: number | optional".
Proof.
  apply (format_written_table [lit "Name"; lit "Type"]
           [[lit "url"; lit "string"];
            [lit "retries"; lit "number"; lit "optional"]]).
  - discriminate.
  - repeat constructor; try discriminate; vm_compute; intuition discriminate.
  - discriminate.
  - repeat constructor; try discriminate;
      try (vm_compute; intuition discriminate).
    + exists (lit "url"), (chr "u"). vm_compute. auto.
    + exists (lit "retries"), (chr "r"). vm_compute. auto.
Defined.

(** ** Spans between two markers *)

Lemma remove_spans_go_skip (op cl x rest : str) :
  remove_spans_go op cl (x ++ rest) (List.length x)
  = remove_spans_go op cl rest 0.
Proof. induction x as [|c x IH]; [reflexivity|exact IH]. Qed.

Lemma find_eq (p s : str) :
  find p s
  = if startswith p s then Some 0
    else match s with
         | [] => None
         | _ :: s' => option_map S (find p s')
         end.
Proof. destruct s; reflexivity. Qed.

Lemma startswith_head_neq (p s : str) (k y : char) :
  hd_error p = Some k -> k <> y -> startswith p (y :: s) = false.
Proof.
  intros Hk Hy. destruct p as [|k' p]; [discriminate|]. injection Hk as ->.
  cbn [startswith]. apply N.eqb_neq in Hy. now rewrite Hy.
Qed.

Lemma find_after (cl b c : str) (k : char) :
  hd_error cl = Some k -> ~ In k b ->
  find cl (b ++ cl ++ c) = Some (List.length b).
Proof.
  intros Hk Hb. induction b as [|y b IH].
  - cbn [app]. now rewrite find_eq, startswith_app.
  - change ((y :: b) ++ cl ++ c) with (y :: (b ++ cl ++ c)).
    rewrite find_eq, (startswith_head_neq cl _ k y Hk).
    + rewrite IH; [reflexivity|]. intros H. apply Hb. now right.
    + intros ->. apply Hb. now left.
Qed.

Lemma remove_spans_go_cons (op cl : str) (c : char) (s : str) :
  remove_spans_go op cl (c :: s) 0
  = if startswith op (c :: s) then
      match find cl (skipn (List.length op) (c :: s)) with
      | Some k =>
          remove_spans_go op cl s
            (pred (List.length op + k + List.length cl))
      | None => c :: remove_spans_go op cl s 0
      end
    else c :: remove_spans_go op cl s 0.
Proof. reflexivity. Qed.

Lemma remove_spans_go_before (op cl a rest : str) (o : char) :
  hd_error op = Some o -> ~ In o a ->
  remove_spans_go op cl (a ++ rest) 0 = a ++ remove_spans_go op cl rest 0.
Proof.
  intros Ho Ha. induction a as [|y a IH]; [reflexivity|].
  change ((y :: a) ++ rest) with (y :: (a ++ rest)).
  rewrite remove_spans_go_cons, (startswith_head_neq op _ o y Ho).
  - rewrite IH; [reflexivity|]. intros H. apply Ha. now right.
  - intros ->. apply Ha. now left.
Qed.

(** X12.  Steps 2, 5 and 6 (lines 49, 67, 73), which are [remove_spans] with
    the markers of each: a span is removed with both its markers, the
    text before it is kept and the pass goes on after the closing
    marker.  It is enough that the text before holds no first character
    of the opening marker, and the inside of the span no first character
    of the closing one. *)
Theorem remove_spans_balanced (op cl a b c : str) (o k : char) :
  hd_error op = Some o -> hd_error cl = Some k ->
  ~ In o a -> ~ In k b ->
  remove_spans op cl (a ++ op ++ b ++ cl ++ c) = a ++ remove_spans op cl c.
Proof.
  intros Ho Hk Ha Hb. unfold remove_spans.
  rewrite (remove_spans_go_before op cl a _ o Ho Ha). f_equal.
  destruct op as [|o' op]; [discriminate|].
  change ((o' :: op) ++ b ++ cl ++ c) with (o' :: (op ++ b ++ cl ++ c)).
  rewrite remove_spans_go_cons.
  replace (startswith (o' :: op) (o' :: op ++ b ++ cl ++ c)) with true
    by (symmetry; apply (startswith_app (o' :: op))).
  replace (skipn (List.length (o' :: op)) (o' :: op ++ b ++ cl ++ c))
    with (b ++ cl ++ c)
    by (change (o' :: op ++ b ++ cl ++ c) with ((o' :: op) ++ b ++ cl ++ c);
        rewrite skipn_app, skipn_all, Nat.sub_diag; reflexivity).
  rewrite (find_after cl b c k Hk Hb).
  replace (op ++ b ++ cl ++ c) with ((op ++ b ++ cl) ++ c)
    by (now rewrite <- !app_assoc).
  replace (pred (List.length (o' :: op) + List.length b + List.length cl))
    with (List.length (op ++ b ++ cl))
    by (rewrite !length_app; cbn [List.length]; lia).
  apply remove_spans_go_skip.
Qed.

Lemma remove_spans_balanced_witness :
  remove_html_comments
    (lit "keep " ++ lit "<!--" ++ lit " drop > this " ++ lit "-->"
     ++ lit ", and that.")
  = lit "keep " ++ remove_html_comments (lit ", and that.")
  /\ remove_code_blocks
       (lit "a " ++ lit "```" ++ lit "code" ++ lit "```" ++ lit " b")
     = lit "a " ++ remove_code_blocks (lit " b").
Proof.
  split.
  - apply (remove_spans_balanced (lit "<!--") (lit "-->") (lit "keep ")
             (lit " drop > this ") (lit ", and that.") (chr "<") (chr "-"));
      try reflexivity; vm_compute; intuition discriminate.
  - apply (remove_spans_balanced (lit "```") (lit "```") (lit "a ")
             (lit "code") (lit " b") BACKTICK BACKTICK);
      try reflexivity; vm_compute; intuition discriminate.
Defined.

Lemma contains_tail (p s : str) (c : char) :
  contains p (c :: s) = false -> contains p s = false.
Proof. cbn [contains]. intros H. now apply orb_false_iff in H. Qed.

Lemma contains_skipn (p s : str) (n : nat) :
  contains p s = false -> contains p (skipn n s) = false.
Proof.
  revert s. induction n as [|n IH]; intros s H; [exact H|].
  destruct s as [|c s]; [exact H|]. cbn [skipn]. apply IH.
  now apply contains_tail in H.
Qed.

Lemma find_none (p s : str) : contains p s = false -> find p s = None.
Proof.
  induction s as [|c s IH]; intros H; rewrite find_eq;
    cbn [contains] in H; apply orb_false_iff in H; destruct H as [H1 H2];
    rewrite H1; [reflexivity|]. now rewrite IH.
Qed.

(** X13.  In the same three passes, a text in which the closing marker does not
    occur is returned as it is: an opening marker that is never closed
    stays in the text, with all that follows it. *)
Theorem remove_spans_unclosed (op cl s : str) :
  contains cl s = false -> remove_spans op cl s = s.
Proof.
  unfold remove_spans. induction s as [|c s IH]; intros H; [reflexivity|].
  rewrite remove_spans_go_cons.
  rewrite (find_none cl _ (contains_skipn cl (c :: s) (List.length op) H)).
  rewrite IH by (now apply contains_tail in H).
  now destruct (startswith op (c :: s)).
Qed.

Lemma remove_spans_unclosed_witness :
  remove_html_comments (lit "a <!-- never closed -> b")
  = lit "a <!-- never closed -> b".
Proof. apply remove_spans_unclosed. reflexivity. Defined.

(** ** Inline code and addresses *)

Lemma unwrap_inline_code_go_skip (x rest : str) :
  unwrap_inline_code_go (x ++ rest) (List.length x)
  = unwrap_inline_code_go rest 0.
Proof. induction x as [|c x IH]; [reflexivity|exact IH]. Qed.

Lemma unwrap_inline_code_go_cons (c : char) (s : str) :
  unwrap_inline_code_go (c :: s) 0
  = let n := span_len (fun d => negb (d =? BACKTICK)%N) s in
    if (c =? BACKTICK)%N && (0 <? n) && (n <? List.length s)
    then lit "\1" ++ unwrap_inline_code_go s (S n)
    else c :: unwrap_inline_code_go s 0.
Proof. reflexivity. Qed.

Lemma span_len_app (f : char -> bool) (b rest : str) :
  forallb f b = true ->
  span_len f (b ++ rest) = List.length b + span_len f rest.
Proof.
  induction b as [|y b IH]; intros H; [reflexivity|].
  cbn [forallb] in H. apply andb_true_iff in H. destruct H as [Hy H].
  cbn [app span_len List.length]. rewrite Hy, IH by exact H. reflexivity.
Qed.

(** X14.  Step 3 (line 55).  A span between two backticks is not unwrapped: the
    replacement template of the source stands for a backslash and the
    digit 1, and that two-character text takes the place of the whole
    span, its content included. *)
Theorem unwrap_inline_code_span (a b c : str) :
  ~ In BACKTICK a -> ~ In BACKTICK b -> b <> [] ->
  unwrap_inline_code (a ++ [BACKTICK] ++ b ++ [BACKTICK] ++ c)
  = a ++ lit "\1" ++ unwrap_inline_code c.
Proof.
  intros Ha Hb Hne. unfold unwrap_inline_code.
  induction a as [|y a IH].
  - cbn [app]. rewrite unwrap_inline_code_go_cons. cbv zeta.
    assert (F : forallb (fun d : char => negb (d =? BACKTICK)%N) b = true).
    { apply forallb_forall. intros d Hd. apply negb_true_iff, N.eqb_neq.
      intros ->. now apply Hb. }
    rewrite (span_len_app _ b (BACKTICK :: c) F).
    cbn [span_len]. rewrite N.eqb_refl. cbn [negb]. rewrite Nat.add_0_r.
    replace (0 <? List.length b) with true
      by (symmetry; apply Nat.ltb_lt; destruct b; [congruence|cbn; lia]).
    replace (List.length b <? List.length (b ++ BACKTICK :: c)) with true
      by (symmetry; apply Nat.ltb_lt; rewrite length_app; cbn; lia).
    cbn [andb]. f_equal.
    replace (b ++ BACKTICK :: c) with ((b ++ [BACKTICK]) ++ c)
      by (now rewrite <- app_assoc).
    replace (S (List.length b)) with (List.length (b ++ [BACKTICK]))
      by (rewrite length_app; cbn; lia).
    apply unwrap_inline_code_go_skip.
  - cbn [app]. rewrite unwrap_inline_code_go_cons. cbv zeta.
    destruct (y =? BACKTICK)%N eqn:E.
    + apply N.eqb_eq in E. exfalso. apply Ha. now left.
    + cbn [andb app]. f_equal. apply IH. intros H. apply Ha. now right.
Qed.

Lemma unwrap_inline_code_span_witness :
  unwrap_inline_code (lit "run `npm install` first")
  = lit "run \1 first".
Proof.
  apply (unwrap_inline_code_span (lit "run ") (lit "npm install")
           (lit " first"));
    try discriminate; vm_compute; intuition discriminate.
Defined.

Lemma remove_urls_go_skip (x rest : str) :
  remove_urls_go (x ++ rest) (List.length x) = remove_urls_go rest 0.
Proof. induction x as [|c x IH]; [reflexivity|exact IH]. Qed.

Lemma remove_urls_go_cons (c : char) (s : str) :
  remove_urls_go (c :: s) 0
  = match url_match (c :: s) with
    | Some len => remove_urls_go s (pred len)
    | None => c :: remove_urls_go s 0
    end.
Proof. reflexivity. Qed.

Lemma url_match_other (y : char) (s : str) :
  y <> chr "h" -> url_match (y :: s) = None.
Proof.
  intros H. unfold url_match.
  rewrite (startswith_head_neq (lit "https://") s (chr "h") y);
    [|reflexivity|congruence].
  rewrite (startswith_head_neq (lit "http://") s (chr "h") y);
    [reflexivity|reflexivity|congruence].
Qed.

Lemma url_match_scheme (scheme u rest : str) :
  scheme = lit "http://" \/ scheme = lit "https://" ->
  u <> [] -> forallb url_char u = true -> span_len url_char rest = 0 ->
  url_match (scheme ++ u ++ rest)
  = Some (List.length scheme + List.length u).
Proof.
  intros Hs Hne Hu Hrest.
  assert (L : span_len url_char (u ++ rest) = List.length u)
    by (rewrite span_len_app, Hrest by exact Hu; lia).
  assert (P : (0 <? List.length u) = true)
    by (apply Nat.ltb_lt; destruct u; [congruence|cbn; lia]).
  unfold url_match. destruct Hs as [-> | ->].
  - replace (startswith (lit "https://") (lit "http://" ++ u ++ rest))
      with false by reflexivity.
    rewrite startswith_app, skipn_app, skipn_all, Nat.sub_diag.
    cbn [skipn app]. now rewrite L, P.
  - rewrite startswith_app, skipn_app, skipn_all, Nat.sub_diag.
    cbn [skipn app]. now rewrite L, P.
Qed.

(** X15.  Step 8 (line 85).  An address is removed from its scheme up to the
    next backslash, letter s or closing parenthesis, or to the end of the
    text: with the doubled backslashes of the source these three are the
    characters the pattern stops at, and white space is not one of
    them. *)
Theorem remove_urls_address (scheme a u rest : str) :
  scheme = lit "http://" \/ scheme = lit "https://" ->
  ~ In (chr "h") a ->
  u <> [] -> forallb url_char u = true -> span_len url_char rest = 0 ->
  remove_urls (a ++ scheme ++ u ++ rest) = a ++ remove_urls rest.
Proof.
  intros Hs Ha Hne Hu Hrest. unfold remove_urls.
  induction a as [|y a IH].
  - cbn [app].
    assert (M := url_match_scheme scheme u rest Hs Hne Hu Hrest).
    assert (E : exists t, scheme = chr "h" :: t)
      by (destruct Hs as [-> | ->]; eexists; reflexivity).
    destruct E as (t & ->).
    change ((chr "h" :: t) ++ u ++ rest) with (chr "h" :: (t ++ u ++ rest))
      in *.
    rewrite remove_urls_go_cons, M.
    replace (t ++ u ++ rest) with ((t ++ u) ++ rest)
      by (now rewrite <- app_assoc).
    replace (pred (List.length (chr "h" :: t) + List.length u))
      with (List.length (t ++ u))
      by (rewrite length_app; cbn [List.length]; lia).
    apply remove_urls_go_skip.
  - change ((y :: a) ++ scheme ++ u ++ rest)
      with (y :: (a ++ scheme ++ u ++ rest)).
    rewrite remove_urls_go_cons, url_match_other.
    + cbn [app]. f_equal. apply IH. intros H. apply Ha. now right.
    + intros ->. apply Ha. now left.
Qed.

Lemma remove_urls_address_witness :
  remove_urls (lit "See " ++ lit "https://" ++ lit "x.com/a and more word"
               ++ lit "s, then (y)")
  = lit "See " ++ remove_urls (lit "s, then (y)").
Proof.
  apply (remove_urls_address (lit "https://") (lit "See ")
           (lit "x.com/a and more word") (lit "s, then (y)"));
    try (now right); try discriminate; try reflexivity.
  vm_compute. intuition discriminate.
Defined.

(** ** Line boundaries in the output *)

Lemma splitlines_no_break_upto (n : nat) (s p : str) (c : char) :
  List.length s <= n -> In p (splitlines s) -> In c p ->
  is_linebreak c = false.
Proof.
  revert s p. induction n as [|n IH]; intros s p Hn Hp Hc.
  - destruct s; [destruct Hp|cbn in Hn; lia].
  - destruct s as [|x s]; [destruct Hp|]. cbn [List.length] in Hn.
    cbn [splitlines] in Hp. destruct (is_linebreak x) eqn:Ex.
    + destruct Hp as [<-|Hp]; [destruct Hc|].
      destruct s as [|d s]; [destruct Hp|].
      destruct ((x =? CR)%N && (d =? LF)%N).
      * apply (IH s p); [cbn [List.length] in Hn; lia|exact Hp|exact Hc].
      * apply (IH (d :: s) p); [lia|exact Hp|exact Hc].
    + destruct (cons_head_In _ _ _ _ Hp Hc) as [->|(q & Hq & Hcq)];
        [exact Ex|].
      apply (IH s q); [lia|exact Hq|exact Hcq].
Qed.

Lemma splitlines_no_break (s p : str) (c : char) :
  In p (splitlines s) -> In c p -> is_linebreak c = false.
Proof. apply (splitlines_no_break_upto (List.length s)). lia. Qed.

Lemma collapse_breaks_go_incl (s : str) (skip : nat) (c : char) :
  In c (collapse_breaks_go s skip) -> c = LF \/ In c s.
Proof.
  revert skip. induction s as [|x s IH]; intros skip; [intros []|].
  cbn [collapse_breaks_go]. destruct skip as [|k].
  - destruct ((x =? chr "\")%N
              && (3 <=? span_len (fun d => (d =? chr "n")%N) s)).
    + intros [H|[H|H]]; [now left|now left|].
      destruct (IH _ H); [now left|right; now right].
    + intros [H|H]; [right; now left|].
      destruct (IH _ H); [now left|right; now right].
  - intros H. destruct (IH _ H); [now left|right; now right].
Qed.

Lemma final_cleanup_breaks (text : str) (c : char) :
  In c (final_cleanup text) -> is_linebreak c = true -> c = LF.
Proof.
  unfold final_cleanup. intros Hc Hb. apply strip_incl in Hc.
  apply collapse_breaks_go_incl in Hc. destruct Hc as [Hc|Hc]; [exact Hc|].
  exfalso. apply join_incl in Hc. destruct Hc as [Hc|(p & Hp & Hc)].
  - rewrite BSN_chars in Hc. destruct Hc as [<-|[<-|[]]]; discriminate.
  - apply in_map_iff in Hp. destruct Hp as (l & <- & Hl).
    apply filter_In in Hl. destruct Hl as [Hl _]. apply strip_incl in Hc.
    rewrite (splitlines_no_break text l c Hl Hc) in Hb. discriminate.
Qed.

(** X16.  Whatever the document and the renderer, the only line boundary in the
    text the normalizer returns is the line feed: no carriage return and
    none of the other boundaries at which [splitlines] cuts. *)
Theorem extract_text_breaks (md_to_text : str -> str)
    (markdown_content : str) (c : char) :
  In c (extract_text_from_markdown md_to_text markdown_content) ->
  is_linebreak c = true -> c = LF.
Proof.
  unfold extract_text_from_markdown.
  destruct (extract_tables (clean_markup markdown_content)) as [pc d].
  apply final_cleanup_breaks.
Qed.

Lemma extract_text_breaks_witness : LF = LF.
Proof.
  apply (extract_text_breaks md_plain
           [chr "a"; CR; LF; chr "n"; chr "n"; CR; chr "b"] LF).
  - vm_compute. auto.
  - reflexivity.
Defined.

(** ** A document of plain prose, end to end *)

Lemma prose_line_facts (l : str) :
  prose_line l = true ->
  l <> [] /\ strip l = l
  /\ forallb (fun c => negb (is_linebreak c)) l = true
  /\ (forall a, In a (lit "`\/<[]|") -> ~ In a l)
  /\ is_metadata_line l = false
  /\ startswith (lit "nn") l = false.
Proof.
  unfold prose_line.
  rewrite !andb_true_iff, str_eqb_eq, !negb_true_iff, truthy_true.
  intros [[[[[H1 H2] H3] H4] H5] H6]. repeat split; auto.
  intros a Ha Hl. rewrite forallb_forall in H4. specialize (H4 a Hl).
  apply negb_true_iff in H4.
  assert (E : existsb (N.eqb a) (lit "`\/<[]|") = true).
  { apply existsb_exists. exists a. split; [exact Ha|apply N.eqb_refl]. }
  congruence.
Qed.

Lemma splitlines_cons (c : char) (s : str) :
  splitlines (c :: s)
  = if is_linebreak c then
      [] :: match s with
            | d :: s'' => if (c =? CR)%N && (d =? LF)%N
                          then splitlines s'' else splitlines s
            | [] => []
            end
    else cons_head c (splitlines s).
Proof. reflexivity. Qed.

Lemma splitlines_line (l t : str) :
  forallb (fun c => negb (is_linebreak c)) l = true ->
  splitlines (l ++ LF :: t) = l :: splitlines t.
Proof.
  induction l as [|c l IH]; intros H.
  - cbn [app]. rewrite splitlines_cons.
    change (is_linebreak LF) with true. cbv iota.
    change ((LF =? CR)%N) with false. cbn [andb]. now destruct t.
  - cbn [forallb] in H. apply andb_true_iff in H. destruct H as [Hc H].
    apply negb_true_iff in Hc. cbn [app].
    rewrite splitlines_cons, Hc, IH by exact H. reflexivity.
Qed.

Lemma splitlines_join (lines : list str) :
  Forall (fun l => l <> []
                   /\ forallb (fun c => negb (is_linebreak c)) l = true) lines ->
  splitlines (join [LF] lines) = lines.
Proof.
  intros HF. induction HF as [|l lines (Hne & Hl) _ IH]; [reflexivity|].
  destruct lines as [|m lines].
  - now apply splitlines_single.
  - rewrite join_cons. cbn [app]. rewrite splitlines_line by exact Hl.
    f_equal. exact IH.
Qed.

Lemma remove_macros_no_bracket (s : str) :
  ~ In (chr "]") s -> remove_macros s = s.
Proof.
  unfold remove_macros.
  induction s as [|c s IH]; intros Hs; [reflexivity|].
  cbn [remove_macros_go].
  assert (M : macro_match (c :: s) = false).
  { unfold macro_match. destruct s as [|b [|c2 [|d s]]]; try reflexivity.
    destruct (d =? chr "]")%N eqn:E; [|now rewrite !andb_false_r].
    apply N.eqb_eq in E. exfalso. apply Hs. subst d. cbn. auto. }
  rewrite M, IH; [reflexivity|]. intros H. apply Hs. now right.
Qed.

Lemma remove_snippets_no_angle (s : str) :
  ~ In (chr "<") s -> remove_snippets s = s.
Proof.
  unfold remove_snippets.
  induction s as [|c s IH]; intros Hs; [reflexivity|].
  cbn [remove_snippets_go]. unfold snippet_match.
  rewrite (startswith_missing (lit "--8<--\") (c :: s) (chr "<"));
    [|vm_compute; tauto|exact Hs].
  rewrite IH; [reflexivity|]. intros H. apply Hs. now right.
Qed.

Lemma lstrip_app_fixed (x y : str) :
  x <> [] -> lstrip x = x -> lstrip (x ++ y) = x ++ y.
Proof.
  intros Hne H. destruct x as [|c x]; [congruence|].
  cbn [lstrip app] in *. destruct (isspace c) eqn:E; [|reflexivity].
  exfalso. apply (f_equal (@List.length char)) in H. cbn [List.length] in H.
  assert (Hlen : forall s, List.length (lstrip s) <= List.length s).
  { intros s. induction s as [|e s IHs]; cbn [lstrip List.length]; [lia|].
    destruct (isspace e); cbn [List.length]; lia. }
  specialize (Hlen x). lia.
Qed.

Lemma rstrip_app_fixed (x y : str) :
  x <> [] -> rstrip x = x -> rstrip (y ++ x) = y ++ x.
Proof.
  intros Hne H. induction y as [|c y IH]; [exact H|].
  cbn [app]. rewrite rstrip_cons, IH.
  destruct (y ++ x) eqn:E; [|reflexivity].
  apply app_eq_nil in E. tauto.
Qed.

Lemma joined_lines_strip (lines : list str) :
  lines <> [] -> Forall (fun l => l <> [] /\ strip l = l) lines ->
  strip (join BSN lines) = join BSN lines.
Proof.
  intros Hne HF.
  assert (L : lstrip (join BSN lines) = join BSN lines).
  { destruct lines as [|l lines]; [congruence|].
    apply Forall_inv in HF. destruct HF as (Hl & Hs).
    rewrite join_trail. apply lstrip_app_fixed; [exact Hl|].
    now apply strip_fixed. }
  unfold strip. rewrite L.
  destruct (exists_last Hne) as (init & final & ->).
  apply Forall_app in HF. destruct HF as [_ HF]. apply Forall_inv in HF.
  destruct HF as (Hl & Hs).
  rewrite join_lead by discriminate. cbn [join].
  apply rstrip_app_fixed; [exact Hl|]. now apply strip_fixed.
Qed.

Lemma collapse_breaks_go_cons (c : char) (s : str) :
  collapse_breaks_go (c :: s) 0
  = let n := span_len (fun d => (d =? chr "n")%N) s in
    if (c =? chr "\")%N && (3 <=? n)
    then LF :: LF :: collapse_breaks_go s n
    else c :: collapse_breaks_go s 0.
Proof. reflexivity. Qed.

Lemma collapse_breaks_go_plain (l rest : str) :
  ~ In (chr "\") l ->
  collapse_breaks_go (l ++ rest) 0 = l ++ collapse_breaks_go rest 0.
Proof.
  induction l as [|c l IH]; intros H; [reflexivity|].
  cbn [app]. rewrite collapse_breaks_go_cons. cbv zeta.
  destruct (c =? chr "\")%N eqn:E.
  - apply N.eqb_eq in E. exfalso. apply H. now left.
  - cbn [andb]. rewrite IH; [reflexivity|]. intros Hl. apply H. now right.
Qed.

Lemma span_len_n_short (m t : str) :
  m <> [] -> startswith (lit "nn") m = false ->
  (t = [] \/ exists t', t = chr "\" :: t') ->
  span_len (fun d => (d =? chr "n")%N) (m ++ t) < 2.
Proof.
  intros Hne Hnn Ht. destruct m as [|c m]; [congruence|].
  cbn [app span_len]. destruct (c =? chr "n")%N eqn:Ec; [|lia].
  apply N.eqb_eq in Ec. subst c.
  destruct m as [|d m].
  - cbn [app]. destruct Ht as [->|(t' & ->)]; cbn; lia.
  - cbn [app span_len]. destruct (d =? chr "n")%N eqn:Ed; [|lia].
    apply N.eqb_eq in Ed. subst d. discriminate.
Qed.

Lemma collapse_breaks_joined (lines : list str) :
  Forall (fun l => l <> [] /\ ~ In (chr "\") l
                   /\ startswith (lit "nn") l = false) lines ->
  collapse_breaks (join BSN lines) = join BSN lines.
Proof.
  unfold collapse_breaks. intros HF.
  induction HF as [|l lines (Hne & Hb & Hnn) HF IH]; [reflexivity|].
  rewrite join_trail, collapse_breaks_go_plain by exact Hb. f_equal.
  destruct lines as [|m lines]; [reflexivity|].
  unfold trail.
  change (BSN ++ join BSN (m :: lines))
    with (92%N :: 110%N :: join BSN (m :: lines)).
  rewrite collapse_breaks_go_cons. cbv zeta.
  assert (S2 : span_len (fun d => (d =? chr "n")%N)
                 (110%N :: join BSN (m :: lines)) < 3).
  { cbn [span_len]. change ((110 =? chr "n")%N) with true. cbv iota.
    rewrite join_trail. apply Forall_inv in HF. destruct HF as (Hm & _ & Hmn).
    assert (S1 := span_len_n_short m (trail lines) Hm Hmn).
    assert (T : trail lines = [] \/ exists t', trail lines = chr "\" :: t').
    { destruct lines; [now left|right]. unfold trail. rewrite BSN_chars.
      eexists. reflexivity. }
    specialize (S1 T). lia. }
  replace (3 <=? span_len (fun d => (d =? chr "n")%N)
                   (110%N :: join BSN (m :: lines))) with false
    by (symmetry; apply Nat.leb_gt; exact S2).
  rewrite andb_false_r. f_equal.
  rewrite collapse_breaks_go_cons. cbv zeta.
  change ((110 =? chr "\")%N) with false. cbn [andb]. f_equal. exact IH.
Qed.

Lemma prose_facts (lines : list str) (l : str) :
  forallb prose_line lines = true -> In l lines ->
  l <> [] /\ strip l = l
  /\ forallb (fun c => negb (is_linebreak c)) l = true
  /\ (forall a, In a (lit "`\/<[]|") -> ~ In a l)
  /\ is_metadata_line l = false
  /\ startswith (lit "nn") l = false.
Proof.
  intros HP Hl. apply prose_line_facts.
  exact (proj1 (forallb_forall _ _) HP l Hl).
Qed.

(** The characters of the joined text are those of the separator and of
    the lines. *)
Lemma joined_missing (lines : list str) (a : char) :
  forallb prose_line lines = true ->
  In a (lit "`/<[]|") -> ~ In a (join BSN lines).
Proof.
  intros HP Ha H. apply join_incl in H. destruct H as [H|(l & Hl & Hc)].
  - rewrite BSN_chars in H. vm_compute in Ha.
    destruct H as [<-|[<-|[]]]; intuition discriminate.
  - destruct (prose_facts lines l HP Hl) as (_ & _ & _ & Hm & _).
    apply (Hm a); [|exact Hc].
    vm_compute in Ha. vm_compute. intuition.
Qed.

Lemma joined_nonempty (lines : list str) :
  lines <> [] -> forallb prose_line lines = true -> join BSN lines <> [].
Proof.
  intros Hne HP. destruct lines as [|l rest]; [congruence|].
  destruct (prose_facts _ l HP) as (Hl & _); [now left|].
  now apply join_cons_nonempty.
Qed.

Lemma joined_no_break (lines : list str) :
  forallb prose_line lines = true ->
  forallb (fun c => negb (is_linebreak c)) (join BSN lines) = true.
Proof.
  intros HP. apply forallb_forall. intros c H. apply join_incl in H.
  destruct H as [H|(l & Hl & Hc)].
  - rewrite BSN_chars in H. destruct H as [<-|[<-|[]]]; reflexivity.
  - destruct (prose_facts lines l HP Hl) as (_ & _ & Hb & _).
    exact (proj1 (forallb_forall _ _) Hb c Hc).
Qed.

Lemma clean_markup_prose (lines : list str) :
  forallb prose_line lines = true ->
  hd [] lines <> lit "---" ->
  clean_markup (join [LF] lines) = join BSN lines.
Proof.
  intros HP Hfirst. unfold clean_markup.
  assert (M : forall a, In a (lit "`/<[]|") -> ~ In a (join BSN lines))
    by (intros a; now apply joined_missing).
  assert (S : splitlines (join [LF] lines) = lines).
  { apply splitlines_join, Forall_forall. intros l Hl.
    destruct (prose_facts lines l HP Hl) as (H1 & _ & H3 & _). auto. }
  assert (F : strip_frontmatter (join [LF] lines) = join [LF] lines).
  { unfold strip_frontmatter. rewrite S.
    destruct lines as [|first rest]; [reflexivity|].
    destruct (prose_facts _ first HP) as (_ & Hs & _); [now left|].
    rewrite Hs.
    destruct (str_eqb first (lit "---")) eqn:Q; [|reflexivity].
    apply str_eqb_eq in Q. cbn [hd] in Hfirst. congruence. }
  assert (D : strip_metadata_lines (join [LF] lines) = join BSN lines).
  { unfold strip_metadata_lines. rewrite S, filter_all; [reflexivity|].
    intros l Hl.
    destruct (prose_facts lines l HP Hl) as (_ & _ & _ & _ & Hm & _).
    now rewrite Hm. }
  rewrite F, D.
  unfold remove_code_blocks, remove_service_blocks, remove_html_comments.
  rewrite (remove_spans_missing (lit "```") _ _ BACKTICK);
    [|vm_compute; tauto|apply M; vm_compute; tauto].
  rewrite unwrap_inline_code_missing by (apply M; vm_compute; tauto).
  rewrite remove_macros_no_bracket by (apply M; vm_compute; tauto).
  rewrite (remove_spans_missing (lit "///") _ _ (chr "/"));
    [|vm_compute; tauto|apply M; vm_compute; tauto].
  rewrite (remove_spans_missing (lit "<!--") _ _ (chr "<"));
    [|vm_compute; tauto|apply M; vm_compute; tauto].
  rewrite remove_snippets_no_angle by (apply M; vm_compute; tauto).
  rewrite remove_urls_missing by (apply M; vm_compute; tauto).
  unfold unwrap_markdown_links, unwrap_reference_links.
  apply remove_link_definitions_id. intros line Hl.
  unfold is_link_definition.
  rewrite (startswith_missing (lit "[") (strip line) (chr "["));
    [reflexivity|now left|].
  intros H. apply strip_incl in H.
  apply (M (chr "[")); [vm_compute; tauto|].
  eapply split_incl; eauto.
Qed.

Lemma final_cleanup_prose (lines : list str) :
  lines <> [] -> forallb prose_line lines = true ->
  final_cleanup (join BSN lines) = join BSN lines.
Proof.
  intros Hne HP.
  assert (St : strip (join BSN lines) = join BSN lines).
  { apply joined_lines_strip; [exact Hne|].
    apply Forall_forall. intros l Hl.
    destruct (prose_facts lines l HP Hl) as (H1 & H2 & _). auto. }
  unfold final_cleanup.
  rewrite splitlines_single
    by (now apply joined_nonempty || now apply joined_no_break).
  cbn [filter]. rewrite St.
  replace (truthy (join BSN lines)) with true
    by (symmetry; now apply truthy_true, joined_nonempty).
  cbn [map join]. rewrite St, collapse_breaks_joined; [exact St|].
  apply Forall_forall. intros l Hl.
  destruct (prose_facts lines l HP Hl) as (H1 & _ & _ & Hm & _ & Hn).
  repeat split; auto. apply Hm. vm_compute. tauto.
Qed.

(** X17.  For a document of plain prose lines separated by line feeds, the
    first of which is not three dashes, the normalizer returns the same
    lines joined by the two characters backslash and n, not by line
    feeds, whenever the renderer returns that joined text as it is. *)
Theorem extract_text_prose (md_to_text : str -> str) (lines : list str) :
  lines <> [] -> forallb prose_line lines = true ->
  hd [] lines <> lit "---" ->
  md_to_text (join BSN lines) = join BSN lines ->
  extract_text_from_markdown md_to_text (join [LF] lines) = join BSN lines.
Proof.
  intros Hne HP Hfirst Hmd. unfold extract_text_from_markdown.
  rewrite clean_markup_prose by assumption.
  unfold extract_tables. rewrite scan_tables_none.
  - rewrite Hmd. cbn [restore_tables fold_left].
    now apply final_cleanup_prose.
  - intros line Hl. apply no_pipe_not_table_line. intros H.
    apply (joined_missing lines PIPE HP); [vm_compute; tauto|].
    eapply split_incl; eauto.
Qed.

Lemma extract_text_prose_witness :
  extract_text_from_markdown md_plain
    (text_of_lines ["Install the node."; "Then open the editor."]%string)
  = lit "Install the node.\nThen open the editor.".
Proof.
  apply (extract_text_prose md_plain
           [lit "Install the node."; lit "Then open the editor."]).
  - discriminate.
  - vm_compute. reflexivity.
  - discriminate.
  - reflexivity.
Defined.

(** ** What every record of the corpus satisfies *)

Lemma process_file_records (md_to_text : str -> str)
    (files : list (str * option str)) (data : list CleanedRecord)
    (P : CleanedRecord -> Prop) :
  (forall relative_path markdown_content,
     endswith (lit ".md") relative_path = true ->
     long_enough (extract_text_from_markdown md_to_text markdown_content)
     = true ->
     P (mkRecord relative_path
          (extract_text_from_markdown md_to_text markdown_content))) ->
  Forall P data ->
  Forall P (fold_left (process_file md_to_text) files data).
Proof.
  intros HP. revert data.
  induction files as [|[p read] files IH]; intros data HF; [exact HF|].
  cbn [fold_left]. apply IH. unfold process_file.
  destruct (endswith (lit ".md") p) eqn:Emd; [|exact HF].
  destruct read as [c|]; [|exact HF].
  destruct (long_enough (extract_text_from_markdown md_to_text c)) eqn:El;
    [|exact HF].
  apply Forall_app. split; [exact HF|]. constructor; [|constructor].
  now apply HP.
Qed.

(** X5.  Every record that a walk produces has a path that ends in [.md] and
    a content of more than 50 characters with no white space at either
    end, whatever the files and the renderer. *)
Theorem process_documentation_invariant (md_to_text : str -> str)
    (files : list (str * option str)) (r : CleanedRecord) :
  In r (process_documentation md_to_text files) ->
  endswith (lit ".md") (file_path r) = true
  /\ 50 < List.length (content r)
  /\ strip (content r) = content r.
Proof.
  intros Hr.
  assert (F : Forall (fun r => endswith (lit ".md") (file_path r) = true
                               /\ 50 < List.length (content r)
                               /\ strip (content r) = content r)
                (process_documentation md_to_text files)).
  { unfold process_documentation. apply process_file_records;
      [|constructor].
    intros p c Hmd Hl. cbn [file_path content].
    assert (T : strip (extract_text_from_markdown md_to_text c)
                = extract_text_from_markdown md_to_text c).
    { unfold extract_text_from_markdown.
      destruct (extract_tables (clean_markup c)) as [pc d].
      apply final_cleanup_trimmed. }
    split; [exact Hmd|]. split; [|exact T].
    unfold long_enough in Hl. apply andb_true_iff in Hl.
    destruct Hl as [_ Hl]. rewrite T in Hl. now apply Nat.ltb_lt. }
  exact (proj1 (Forall_forall _ _) F r Hr).
Qed.

Lemma process_documentation_invariant_witness :
  50 < List.length
         (lit "123456789012345678901234567890123456789012345678901").
Proof.
  apply (process_documentation_invariant md_plain
           [(lit "a.txt", Some (lit "ignored"));
            (lit "b.md", None);
            (lit "c.md",
             Some (lit "123456789012345678901234567890123456789012345678901"))]
           (mkRecord (lit "c.md")
              (lit "123456789012345678901234567890123456789012345678901"))).
  vm_compute. now left.
Defined.
